(** * Brand consistency checker: a shallow embedding of
      [on_brand_crew/tools/brand_checker.py], [on_brand_crew/models.py],
      [SimpleBrandChecker] of [on_brand_crew/crew.py] and the two check
      commands of [on_brand_crew/main.py]

    Modelling conventions.
    - A Python [str] is a [string]; a character is a code point below 256
      ([ascii] read as Latin-1), which is where [str.lower], [str.strip] and
      the regular-expression class [\s] are given by a small closed table.
    - A Python [set[str]] is a [gset string].
    - A Python [float] score is the exact rational ([Q]) it rounds; every
      score of the checker is a quotient of two list lengths, or the mean of
      two such quotients. [Binary64] redoes the comparisons and the
      confidence formula in IEEE double precision, and the section on
      agreement shows that both give the same decisions on every validated
      profile (stage 4) and for unions of up to 256 words (overlaps).
    - An exception is a value: fallible operations ([l[0]], [a / b],
      [d[k]]) live in the result monad [M], and so does everything that
      calls them.
    - The local variables of [BrandCheckerTool._run] are the record
      [Locals]; the numbered stages of the method body are functions
      [Locals -> M Locals], run in sequence.
    - [Verdict] holds the keys of the returned dict that the stages decide.
      [contentHash] is computed from the code points of the raw content by
      [compute_content_hash] (UTF-8, strict, then SHA-256) and is carried
      by the verdict dict of [BrandCheckerTool_run]; a [str] with a lone
      surrogate, which [encode] rejects, is a list of code points that is
      no text of this development. [checkedAt], the wall clock, is left
      out. *)

From Stdlib Require Import Ascii String QArith Qround Sorted.
From Stdlib Require PrimFloat Uint63.
From stdpp Require Import gmap strings list sets.

Open Scope string_scope.

(** ** Python strings *)

Module PyStr.

Definition ord (c : ascii) : N := Ascii.N_of_ascii c.
Definition chr (n : N) : ascii := Ascii.ascii_of_N n.

(** [str.isspace] on one character, which is also the class [\s] of a
    [str] pattern: TAB..CR, FS..US, SPACE, NEL and NBSP. *)
Definition isspace (c : ascii) : bool :=
  let n := ord c in
  ((9 <=? n) && (n <=? 13) || (28 <=? n) && (n <=? 32)
   || (n =? 133) || (n =? 160))%N.

(** [str.lower] on one character: A..Z and the Latin-1 capitals
    U+00C0..U+00DE except the multiplication sign U+00D7. *)
Definition lower_char (c : ascii) : ascii :=
  let n := ord c in
  if ((65 <=? n) && (n <=? 90)
      || (192 <=? n) && (n <=? 222) && negb (n =? 215))%N
  then chr (n + 32) else c.

Fixpoint lower (s : string) : string :=
  match s with
  | EmptyString => EmptyString
  | String c r => String (lower_char c) (lower r)
  end.

Fixpoint lstrip (s : string) : string :=
  match s with
  | EmptyString => EmptyString
  | String c r => if isspace c then lstrip r else s
  end.

Fixpoint rstrip (s : string) : string :=
  match s with
  | EmptyString => EmptyString
  | String c r =>
      match rstrip r with
      | EmptyString => if isspace c then EmptyString else String c EmptyString
      | r' => String c r'
      end
  end.

Definition strip (s : string) : string := rstrip (lstrip s).

(** [re.sub(cls+, repl, s)] for a character class [cls] and a one-character
    replacement: every maximal run of class characters becomes [repl].
    [in_run] records that the previous character was in the class. *)
Fixpoint re_sub_runs (cls : ascii -> bool) (repl : ascii) (in_run : bool)
         (s : string) : string :=
  match s with
  | EmptyString => EmptyString
  | String c r =>
      if cls c
      then (if in_run then re_sub_runs cls repl true r
            else String repl (re_sub_runs cls repl true r))
      else String c (re_sub_runs cls repl false r)
  end.

(** [re.split(cls+, s)]: the pieces between the maximal runs of class
    characters, the (possibly empty) first and last pieces included.
    [cur] is the piece being read. *)
Fixpoint re_split_runs (cls : ascii -> bool) (in_run : bool) (cur : string)
         (s : string) : list string :=
  match s with
  | EmptyString => [cur]
  | String c r =>
      if cls c
      then (if in_run then re_split_runs cls true EmptyString r
            else cur :: re_split_runs cls true EmptyString r)
      else re_split_runs cls false (cur +:+ String c EmptyString) r
  end.

Fixpoint startswith (s p : string) : bool :=
  match p, s with
  | EmptyString, _ => true
  | String _ _, EmptyString => false
  | String a p', String b s' => Ascii.eqb a b && startswith s' p'
  end.

(** [p in s]: [p] occurs in [s] as a contiguous substring. *)
Fixpoint contains (s p : string) : bool :=
  startswith s p
  || match s with
     | EmptyString => false
     | String _ s' => contains s' p
     end.

Definition nonempty (s : string) : bool :=
  match s with EmptyString => false | String _ _ => true end.

(** [sep.join(l)] *)
Fixpoint join (sep : string) (l : list string) : string :=
  match l with
  | [] => EmptyString
  | [x] => x
  | x :: r => x +:+ sep +:+ join sep r
  end.

Definition dquote : string := String (chr 34) EmptyString.

End PyStr.

(** Every character is whitespace (the empty string included). *)
Fixpoint whitespace_only (s : string) : bool :=
  match s with
  | EmptyString => true
  | String c r => PyStr.isspace c && whitespace_only r
  end.

(** ** Text primitives of [brand_checker.py] *)

Definition normalize_text (text : string) : string :=
  PyStr.re_sub_runs PyStr.isspace " "%char false (PyStr.strip (PyStr.lower text)).

Definition contains_phrase (content phrase : string) : bool :=
  PyStr.contains (normalize_text content) (normalize_text phrase).

(** The delimiter class of [tokenize]: whitespace, and the code points of
    full stop, comma, exclamation and question marks, semicolon, colon,
    apostrophe, quotation mark, and the round, square and curly brackets. *)
Definition is_token_delimiter (c : ascii) : bool :=
  PyStr.isspace c
  || bool_decide (PyStr.ord c ∈ [46; 44; 33; 63; 59; 58; 39; 34; 40; 41; 91; 93; 123; 125]%N).

Definition tokenize (text : string) : gset string :=
  let normalized := normalize_text text in
  let words := PyStr.re_split_runs is_token_delimiter false EmptyString normalized in
  list_to_set (List.filter PyStr.nonempty words).

(** ** Exceptions as values *)

Inductive exn :=
  IndexError | ZeroDivisionError | KeyError | ValidationError
  | UnicodeEncodeError | OSError.

Inductive M (A : Type) : Type :=
| Returned (a : A)
| Raised (e : exn).
Arguments Returned {A} a.
Arguments Raised {A} e.

#[global] Instance M_ret : MRet M := @Returned.
#[global] Instance M_bind : MBind M := λ A B f m,
  match m with
  | Returned a => f a
  | Raised e => Raised e
  end.

(** [l[i]] *)
Definition getitem {A} (l : list A) (i : nat) : M A :=
  match l !! i with
  | Some x => Returned x
  | None => Raised IndexError
  end.

(** [d[k]] for a dict literal, kept as its list of items. *)
Fixpoint dict_getitem {K V} `{EqDecision K} (d : list (K * V)) (k : K) : M V :=
  match d with
  | [] => Raised KeyError
  | (k', v) :: r => if decide (k' = k) then Returned v else dict_getitem r k
  end.

(** [a / b] on two non-negative [int]s (here always lengths). *)
Definition truediv (a b : nat) : M Q :=
  match b with
  | O => Raised ZeroDivisionError
  | S _ => Returned (Z.of_nat a # Pos.of_nat b)
  end.

(** [for x in xs: acc = f(acc, x)] where the body may raise. *)
Fixpoint for_each {A B} (f : B → A → M B) (acc : B) (xs : list A) : M B :=
  match xs with
  | [] => Returned acc
  | x :: r => acc' ← f acc x; for_each f acc' r
  end.

(** ** Numbers *)

Definition Qltb (a b : Q) : bool := negb (Qle_bool b a).

(** [max(a, b)] on floats: the second argument only when it is greater. *)
Definition py_max (a b : Q) : Q := if Qltb a b then b else a.

(** [int(x)]: truncation towards zero. *)
Definition py_int (x : Q) : Z := Z.quot (Qnum x) (Zpos (Qden x)).

(** ** Sorting: [sorted] and [list.sort] are stable *)

Section Sort.
Context {A : Type} (le : A → A → bool).

Fixpoint insert_sorted (x : A) (l : list A) : list A :=
  match l with
  | [] => [x]
  | y :: r => if le x y then x :: l else y :: insert_sorted x r
  end.

(** Elements are inserted from the right, each one in front of the first
    element that is not smaller: equal elements keep their order. *)
Definition py_sorted (l : list A) : list A := foldr insert_sorted [] l.
End Sort.

Definition sort_by_key {A} (key : A → nat) : list A → list A :=
  py_sorted (λ a b, (key a <=? key b)%nat).

Definition key_le {A} (key : A → nat) (a b : A) : Prop := (key a ≤ key b)%nat.

(** The elements of one key, read off in order. *)
Definition with_key {A} (key : A → nat) (k : nat) (l : list A) : list A :=
  List.filter (λ a, (key a =? k)%nat) l.

(** ** [models.py] *)

Inductive BrandAlignmentStatus := ON_BRAND | BORDERLINE | OFF_BRAND.
Inductive ExampleType := good | bad.
Inductive ExplanationSeverity := INFO | WARNING | CRITICAL.
Inductive ExplanationAspect := VALUE | VOICE | TONE | NEVER_RULE | EXAMPLE_MATCH.

#[global] Instance BrandAlignmentStatus_eq_dec : EqDecision BrandAlignmentStatus.
Proof. solve_decision. Defined.
#[global] Instance ExampleType_eq_dec : EqDecision ExampleType.
Proof. solve_decision. Defined.

Record BrandExample := mkBrandExample {
  ex_content : string;
  ex_type : ExampleType;
  ex_note : option string }.

(** The optional [created_at] and [updated_at] stamps are never read. *)
Record BrandProfile := mkBrandProfile {
  name : string;
  version : string;
  values : list string;
  voice_descriptors : list string;
  tone_acceptable : list string;
  tone_unacceptable : list string;
  never_rules : list string;
  examples : list BrandExample;
  description : option string }.

Record BrandExplanation := mkBrandExplanation {
  text : string;
  aspect : option ExplanationAspect;
  severity : ExplanationSeverity }.

(** The class [\d] on a character below 256: there the decimal digits are
    0 to 9 only. (In a [str] pattern the class also holds the decimal
    digits of other scripts, which are no characters of this development.) *)
Definition is_digit (c : ascii) : bool :=
  ((48 <=? PyStr.ord c) && (PyStr.ord c <=? 57))%N.

(** The pattern [\d+] at the head of [s]: what follows the longest
    non-empty run of digits. *)
Fixpoint match_digits (seen : bool) (s : string) : option string :=
  match s with
  | String c r => if is_digit c then match_digits true r
                  else if seen then Some s else None
  | EmptyString => if seen then Some s else None
  end.

Definition match_dot (s : string) : option string :=
  match s with
  | String c r => if (PyStr.ord c =? 46)%N then Some r else None
  | EmptyString => None
  end.

(** [$] without [re.MULTILINE]: the end of the string, or just before a
    final newline. *)
Definition match_end (s : string) : bool :=
  match s with
  | EmptyString => true
  | String c EmptyString => (PyStr.ord c =? 10)%N
  | _ => false
  end.

(** [re.match(r"^\d+\.\d+\.\d+$", v)] *)
Definition semver_match (v : string) : bool :=
  match (r1 ← match_digits false v; r2 ← match_dot r1;
         r3 ← match_digits false r2; r4 ← match_dot r3;
         match_digits false r4) with
  | Some rest => match_end rest
  | None => false
  end.

Definition BrandExample_valid (e : BrandExample) : bool :=
  bool_decide (1 ≤ String.length (ex_content e))%nat.

(** The field constraints and the [validate_version] validator. *)
Definition BrandProfile_valid (p : BrandProfile) : bool :=
  bool_decide (1 ≤ String.length (name p))%nat
  && semver_match (version p)
  && bool_decide (1 ≤ length (values p) ≤ 20)%nat
  && bool_decide (1 ≤ length (voice_descriptors p) ≤ 10)%nat
  && forallb BrandExample_valid (examples p).

Definition model_validate (data : BrandProfile) : M BrandProfile :=
  if BrandProfile_valid data then Returned data else Raised ValidationError.

(** ** [calculate_word_overlap] *)

Definition calculate_word_overlap (text1 text2 : string) : M Q :=
  let words1 := tokenize text1 in
  let words2 := tokenize text2 in
  if bool_decide (words1 = ∅) || bool_decide (words2 = ∅) then Returned 0%Q
  else
    let intersection := size (words1 ∩ words2) in
    let union := size (words1 ∪ words2) in
    if bool_decide (0 < union)%nat then truediv intersection union
    else Returned 0%Q.

(** ** The stand-alone tools *)

Module CheckTone.
Record result := mk {
  acceptable_found : list string;
  unacceptable_found : list string;
  has_violations : bool;
  tone_score : Q }.
End CheckTone.

Definition CheckToneTool_run (content : string) (acceptable unacceptable : list string)
  : M CheckTone.result :=
  let acceptable_found := List.filter (contains_phrase content) acceptable in
  let unacceptable_found := List.filter (contains_phrase content) unacceptable in
  tone_score ← truediv (length acceptable_found) (Nat.max (length acceptable) 1);
  mret {| CheckTone.acceptable_found := py_sorted String.leb acceptable_found;
          CheckTone.unacceptable_found := py_sorted String.leb unacceptable_found;
          CheckTone.has_violations := bool_decide (0 < length unacceptable_found)%nat;
          CheckTone.tone_score := tone_score |}.

Module CheckValueAlignment.
Record result := mk {
  values_aligned : list string;
  values_missing : list string;
  voice_aligned : list string;
  voice_missing : list string;
  value_score : Q;
  voice_score : Q;
  combined_score : Q }.
End CheckValueAlignment.

Definition CheckValueAlignmentTool_run (content : string)
           (values voice_descriptors : list string) : M CheckValueAlignment.result :=
  let values_aligned := List.filter (contains_phrase content) values in
  let values_missing := List.filter (λ v, negb (contains_phrase content v)) values in
  let voice_aligned := List.filter (contains_phrase content) voice_descriptors in
  let voice_missing :=
    List.filter (λ v, negb (contains_phrase content v)) voice_descriptors in
  value_score ← truediv (length values_aligned) (Nat.max (length values) 1);
  voice_score ← truediv (length voice_aligned) (Nat.max (length voice_descriptors) 1);
  mret {| CheckValueAlignment.values_aligned := py_sorted String.leb values_aligned;
          CheckValueAlignment.values_missing := py_sorted String.leb values_missing;
          CheckValueAlignment.voice_aligned := py_sorted String.leb voice_aligned;
          CheckValueAlignment.voice_missing := py_sorted String.leb voice_missing;
          CheckValueAlignment.value_score := value_score;
          CheckValueAlignment.voice_score := voice_score;
          CheckValueAlignment.combined_score := ((value_score + voice_score) / 2)%Q |}.

(** ** [BrandCheckerTool._run]: the local variables *)

Record Locals := mkLocals {
  explanations : list BrandExplanation;
  status : BrandAlignmentStatus;
  confidence : Z;
  never_violations : list string;
  unacceptable_found : list string;
  acceptable_found : list string;
  good_similarity : Q;
  bad_similarity : Q;
  values_aligned : list string;
  voice_aligned : list string;
  value_score : Q;
  voice_score : Q;
  combined_score : Q }.

(** Before the first stage: the three initialised variables; the others
    are assigned by the stage that computes them before anything reads
    them. *)
Definition initial_locals : Locals :=
  mkLocals [] ON_BRAND 85 [] [] [] 0 0 [] [] 0 0 0.

Definition set_explanations (e : list BrandExplanation) (l : Locals) : Locals :=
  mkLocals e (status l) (confidence l) (never_violations l)
    (unacceptable_found l) (acceptable_found l) (good_similarity l)
    (bad_similarity l) (values_aligned l) (voice_aligned l) (value_score l)
    (voice_score l) (combined_score l).

Definition set_status (s : BrandAlignmentStatus) (l : Locals) : Locals :=
  mkLocals (explanations l) s (confidence l) (never_violations l)
    (unacceptable_found l) (acceptable_found l) (good_similarity l)
    (bad_similarity l) (values_aligned l) (voice_aligned l) (value_score l)
    (voice_score l) (combined_score l).

Definition set_confidence (c : Z) (l : Locals) : Locals :=
  mkLocals (explanations l) (status l) c (never_violations l)
    (unacceptable_found l) (acceptable_found l) (good_similarity l)
    (bad_similarity l) (values_aligned l) (voice_aligned l) (value_score l)
    (voice_score l) (combined_score l).

Definition set_never_violations (v : list string) (l : Locals) : Locals :=
  mkLocals (explanations l) (status l) (confidence l) v
    (unacceptable_found l) (acceptable_found l) (good_similarity l)
    (bad_similarity l) (values_aligned l) (voice_aligned l) (value_score l)
    (voice_score l) (combined_score l).

Definition set_tone_found (u a : list string) (l : Locals) : Locals :=
  mkLocals (explanations l) (status l) (confidence l) (never_violations l)
    u a (good_similarity l)
    (bad_similarity l) (values_aligned l) (voice_aligned l) (value_score l)
    (voice_score l) (combined_score l).

Definition set_similarity (g b : Q) (l : Locals) : Locals :=
  mkLocals (explanations l) (status l) (confidence l) (never_violations l)
    (unacceptable_found l) (acceptable_found l) g b
    (values_aligned l) (voice_aligned l) (value_score l)
    (voice_score l) (combined_score l).

Definition set_alignment (va voa : list string) (vs vos cs : Q) (l : Locals) : Locals :=
  mkLocals (explanations l) (status l) (confidence l) (never_violations l)
    (unacceptable_found l) (acceptable_found l) (good_similarity l)
    (bad_similarity l) va voa vs vos cs.

(** [explanations.append(e)] *)
Definition append_explanation (e : BrandExplanation) (l : Locals) : Locals :=
  set_explanations (explanations l ++ [e]) l.

Definition is_nonempty {A} (l : list A) : bool :=
  match l with [] => false | _ :: _ => true end.

(** ** [BrandCheckerTool._run]: the stages *)

Definition quoted (s : string) : string := PyStr.dquote +:+ s +:+ PyStr.dquote.

(** The explanation dicts of the first three stages. *)
Definition prohibited_content (rule : string) : BrandExplanation :=
  {| text := "Contains prohibited content: " +:+ quoted rule;
     aspect := Some NEVER_RULE;
     severity := CRITICAL |}.

Definition unacceptable_tone (tone : string) : BrandExplanation :=
  {| text := "Uses unacceptable tone: " +:+ quoted tone;
     aspect := Some TONE;
     severity := CRITICAL |}.

Definition resembles_off_brand (sev : ExplanationSeverity) : BrandExplanation :=
  {| text := "Content resembles known off-brand examples";
     aspect := Some EXAMPLE_MATCH;
     severity := sev |}.

Definition severity_order (s : ExplanationSeverity) : nat :=
  match s with CRITICAL => 0 | WARNING => 1 | INFO => 2 end.

Section Stages.
Variable profile : BrandProfile.
Variable content : string.

(** 1. Check never rules (critical) *)
Definition never_rule_stage (l : Locals) : M Locals :=
  let l := set_never_violations
             (List.filter (contains_phrase content) (never_rules profile)) l in
  if is_nonempty (never_violations l) then
    first ← getitem (never_violations l) 0;
    mret (append_explanation (prohibited_content first)
            (set_confidence 95 (set_status OFF_BRAND l)))
  else mret l.

(** 2. Check tone boundaries *)
Definition tone_stage (l : Locals) : M Locals :=
  let l := set_tone_found
             (List.filter (contains_phrase content) (tone_unacceptable profile))
             (List.filter (contains_phrase content) (tone_acceptable profile)) l in
  if is_nonempty (unacceptable_found l) then
    let l := set_confidence (Z.max (confidence l) 90) (set_status OFF_BRAND l) in
    if (length (explanations l) <? 3)%nat then
      first ← getitem (unacceptable_found l) 0;
      mret (append_explanation (unacceptable_tone first) l)
    else mret l
  else mret l.

(** The body of the loop over [profile.examples]; the accumulator is the
    pair [(good_similarity, bad_similarity)]. *)
Definition similarity_step (acc : Q * Q) (example : BrandExample) : M (Q * Q) :=
  sim ← calculate_word_overlap content (ex_content example);
  mret (if decide (ex_type example = good)
        then (py_max (fst acc) sim, snd acc)
        else (fst acc, py_max (snd acc) sim)).

(** 3. Check example similarity *)
Definition example_stage (l : Locals) : M Locals :=
  sims ← for_each similarity_step (0%Q, 0%Q) (examples profile);
  let l := set_similarity (fst sims) (snd sims) l in
  if Qltb (3 # 10) (bad_similarity l) then
    let l := if negb (bool_decide (status l = OFF_BRAND))
             then set_status (if Qltb (1 # 2) (bad_similarity l)
                              then OFF_BRAND else BORDERLINE) l
             else l in
    let l := set_confidence (Z.max (confidence l) 80) l in
    if (length (explanations l) <? 3)%nat then
      mret (append_explanation
              (resembles_off_brand (if Qltb (1 # 2) (bad_similarity l)
                                    then CRITICAL else WARNING)) l)
    else mret l
  else mret l.

(** 4. Check value and voice alignment *)
Definition alignment_stage (l : Locals) : M Locals :=
  let values_aligned := List.filter (contains_phrase content) (values profile) in
  let voice_aligned :=
    List.filter (contains_phrase content) (voice_descriptors profile) in
  value_score ← truediv (length values_aligned)
                        (Nat.max (length (values profile)) 1);
  voice_score ← truediv (length voice_aligned)
                        (Nat.max (length (voice_descriptors profile)) 1);
  let combined_score := ((value_score + voice_score) / 2)%Q in
  let l := set_alignment values_aligned voice_aligned
             value_score voice_score combined_score l in
  if bool_decide (status l = ON_BRAND) then
    if Qltb combined_score (3 # 10) then
      mret (set_confidence 70 (set_status BORDERLINE l))
    else if Qltb combined_score (1 # 2) then
      mret (set_confidence 75 (set_status BORDERLINE l))
    else
      mret (set_confidence (80 + py_int (combined_score * 15)) l)
  else mret l.

(** Add positive/constructive explanations *)
Definition positive_stage (l : Locals) : M Locals :=
  if negb (is_nonempty (explanations l)) then
    if Qltb (3 # 10) (good_similarity l) then
      mret (append_explanation
              {| text := "Content aligns well with established brand examples";
                 aspect := Some EXAMPLE_MATCH;
                 severity := INFO |} l)
    else if Qltb (1 # 2) (value_score l) then
      let aligned_str := PyStr.join ", " (take 2 (values_aligned l)) in
      mret (append_explanation
              {| text := "Content reflects brand values: " +:+ aligned_str;
                 aspect := Some VALUE;
                 severity := INFO |} l)
    else
      mret (append_explanation
              {| text := "Content is acceptable but could better reflect brand values";
                 aspect := Some VALUE;
                 severity := INFO |} l)
  else mret l.

(** Add voice explanation if space *)
Definition voice_fill_stage (l : Locals) : M Locals :=
  if (length (explanations l) <? 3)%nat
     && Qltb (voice_score l) (1 # 2)
     && negb (bool_decide (status l = OFF_BRAND)) then
    let voice_missing :=
      List.filter (λ v, negb (contains_phrase content v))
                  (voice_descriptors profile) in
    if is_nonempty voice_missing then
      let missing_str := PyStr.join ", " (take 2 voice_missing) in
      mret (append_explanation
              {| text := "Voice could better emphasize: " +:+ missing_str;
                 aspect := Some VOICE;
                 severity := INFO |} l)
    else mret l
  else mret l.

(** Add acceptable tone if space *)
Definition tone_fill_stage (l : Locals) : M Locals :=
  if (length (explanations l) <? 3)%nat && is_nonempty (acceptable_found l) then
    let found_str := PyStr.join ", " (take 2 (acceptable_found l)) in
    mret (append_explanation
            {| text := "Good use of brand tone: " +:+ found_str;
               aspect := Some TONE;
               severity := INFO |} l)
  else mret l.

(** Ensure at least one explanation *)
Definition final_guarantee_stage (l : Locals) : M Locals :=
  if negb (is_nonempty (explanations l)) then
    mret (append_explanation
            {| text := if bool_decide (status l = ON_BRAND)
                       then "Content aligns with brand guidelines"
                       else "Content requires review for brand alignment";
               aspect := None;
               severity := INFO |} l)
  else mret l.

(** Sort by severity, then [explanations = explanations[:3]] *)
Definition sort_stage (l : Locals) : M Locals :=
  mret (set_explanations
          (sort_by_key (λ x, severity_order (severity x)) (explanations l)) l).

Definition truncate_stage (l : Locals) : M Locals :=
  mret (set_explanations (take 3 (explanations l)) l).

(** The stages that write [status] and [confidence], in the order of the
    method body. *)
Definition decision_stages : list (Locals → M Locals) :=
  [never_rule_stage; tone_stage; example_stage; alignment_stage].

(** The stages that only add explanations. *)
Definition explanation_stages : list (Locals → M Locals) :=
  [positive_stage; voice_fill_stage; tone_fill_stage; final_guarantee_stage].

Definition stages : list (Locals → M Locals) :=
  decision_stages ++ explanation_stages ++ [sort_stage; truncate_stage].
End Stages.

Fixpoint run_stages (fs : list (Locals → M Locals)) (l : Locals) : M Locals :=
  match fs with
  | [] => Returned l
  | f :: r => l' ← f l; run_stages r l'
  end.

(** The local variables as they stand before the first stage and after each
    stage of [fs]. *)
Fixpoint trace_stages (fs : list (Locals → M Locals)) (l : Locals) : M (list Locals) :=
  match fs with
  | [] => Returned [l]
  | f :: r => l' ← f l; t ← trace_stages r l'; mret (l :: t)
  end.

(** ** [BrandCheckerTool._run]: the returned dict *)

Module Details.
Record t := mk {
  neverRuleViolations : list string;
  unacceptableToneFound : list string;
  valueAlignmentScore : Q;
  voiceAlignmentScore : Q;
  exampleSimilarity_good : Q;
  exampleSimilarity_bad : Q }.
End Details.

Module Verdict.
Record t := mk {
  status : BrandAlignmentStatus;
  statusDisplay : string;
  explanations : list BrandExplanation;
  confidence : Z;
  profileVersion : string;
  details : Details.t }.
End Verdict.

(** The labels of [status_display], without their icons (code points above
    255). *)
Definition status_display : list (BrandAlignmentStatus * string) :=
  [(ON_BRAND, "On Brand"); (BORDERLINE, "Borderline"); (OFF_BRAND, "Off Brand")].

(** The method body from [explanations = []] on, for a loaded profile. *)
Definition evaluate (profile : BrandProfile) (content : string) : M Verdict.t :=
  l ← run_stages (stages profile content) initial_locals;
  label ← dict_getitem status_display (status l);
  mret {| Verdict.status := status l;
          Verdict.statusDisplay := label;
          Verdict.explanations := explanations l;
          Verdict.confidence := confidence l;
          Verdict.profileVersion := version profile;
          Verdict.details :=
            {| Details.neverRuleViolations := py_sorted String.leb (never_violations l);
               Details.unacceptableToneFound := py_sorted String.leb (unacceptable_found l);
               Details.valueAlignmentScore := value_score l;
               Details.voiceAlignmentScore := voice_score l;
               Details.exampleSimilarity_good := good_similarity l;
               Details.exampleSimilarity_bad := bad_similarity l |} |}.

(** ** [compute_content_hash] *)

(** The surrogate code points, U+D800 to U+DFFF. *)
Definition is_surrogate (cp : N) : bool := ((55296 <=? cp) && (cp <=? 57343))%N.

(** [str.encode()], UTF-8 and strict, on a [str] given as its code points
    (at most U+10FFFF): a surrogate has no encoding. *)
Definition utf8_char (cp : N) : M (list N) :=
  if (cp <? 128)%N then Returned [cp]
  else if (cp <? 2048)%N then Returned [192 + cp / 64; 128 + cp mod 64]%N
  else if is_surrogate cp then Raised UnicodeEncodeError
  else if (cp <? 65536)%N
       then Returned [224 + cp / 4096; 128 + (cp / 64) mod 64; 128 + cp mod 64]%N
       else Returned [240 + cp / 262144; 128 + (cp / 4096) mod 64;
                      128 + (cp / 64) mod 64; 128 + cp mod 64]%N.

Fixpoint encode (s : list N) : M (list N) :=
  match s with
  | [] => Returned []
  | cp :: r => b ← utf8_char cp; bs ← encode r; mret (b ++ bs)%list
  end.

(** [hashlib.sha256(_).hexdigest()] on a list of bytes (FIPS 180-4). *)
Module SHA256.
Definition mask32 : N := 4294967295.
Definition add32 (a b : N) : N := ((a + b) mod 4294967296)%N.
Definition rotr (n x : N) : N :=
  N.lor (N.shiftr x n) (N.land (N.shiftl x (32 - n)%N) mask32).
Definition Ch (x y z : N) : N :=
  N.lxor (N.land x y) (N.land (N.lxor x mask32) z).
Definition Maj (x y z : N) : N :=
  N.lxor (N.lxor (N.land x y) (N.land x z)) (N.land y z).
Definition Sigma0 (x : N) : N := N.lxor (N.lxor (rotr 2 x) (rotr 13 x)) (rotr 22 x).
Definition Sigma1 (x : N) : N := N.lxor (N.lxor (rotr 6 x) (rotr 11 x)) (rotr 25 x).
Definition sigma0 (x : N) : N := N.lxor (N.lxor (rotr 7 x) (rotr 18 x)) (N.shiftr x 3).
Definition sigma1 (x : N) : N := N.lxor (N.lxor (rotr 17 x) (rotr 19 x)) (N.shiftr x 10).

Definition K : list N :=
  [1116352408; 1899447441; 3049323471; 3921009573; 961987163; 1508970993;
   2453635748; 2870763221; 3624381080; 310598401; 607225278; 1426881987;
   1925078388; 2162078206; 2614888103; 3248222580; 3835390401; 4022224774;
   264347078; 604807628; 770255983; 1249150122; 1555081692; 1996064986;
   2554220882; 2821834349; 2952996808; 3210313671; 3336571891; 3584528711;
   113926993; 338241895; 666307205; 773529912; 1294757372; 1396182291;
   1695183700; 1986661051; 2177026350; 2456956037; 2730485921; 2820302411;
   3259730800; 3345764771; 3516065817; 3600352804; 4094571909; 275423344;
   430227734; 506948616; 659060556; 883997877; 958139571; 1322822218;
   1537002063; 1747873779; 1955562222; 2024104815; 2227730452; 2361852424;
   2428436474; 2756734187; 3204031479; 3329325298]%N.

Definition H0 : list N :=
    [1779033703; 3144134277; 1013904242; 2773480762; 1359893119; 2600822924;
   528734635; 1541459225]%N.

(** The [k] low bytes of [x], most significant first. *)
Fixpoint be_bytes (k : nat) (x : N) : list N :=
  match k with
  | O => []
  | S k' => (be_bytes k' (x / 256)%N ++ [(x mod 256)%N])%list
  end.

Definition pad (msg : list N) : list N :=
  let len := length msg in
  let zeros := ((64 - (len + 9) mod 64) mod 64)%nat in
  (msg ++ [128%N] ++ repeat 0%N zeros ++ be_bytes 8 (8 * N.of_nat len)%N)%list.

Fixpoint words (bs : list N) : list N :=
  match bs with
  | b0 :: b1 :: b2 :: b3 :: r => (((b0 * 256 + b1) * 256 + b2) * 256 + b3)%N :: words r
  | _ => []
  end.

(** The message schedule, newest word first: [n] more words after [w]. *)
Fixpoint extend (n : nat) (w : list N) : list N :=
  match n with
  | O => w
  | S n' =>
      extend n'
        (add32 (add32 (sigma1 (nth 1 w 0%N)) (nth 6 w 0%N))
               (add32 (sigma0 (nth 14 w 0%N)) (nth 15 w 0%N)) :: w)
  end.

Definition schedule (block : list N) : list N := rev (extend 48 (rev block)).

Record state := mk { a : N; b : N; c : N; d : N; e : N; f : N; g : N; h : N }.

Definition round (s : state) (kw : N * N) : state :=
  let T1 := add32 (add32 (add32 (h s) (Sigma1 (e s))) (Ch (e s) (f s) (g s)))
                  (add32 (fst kw) (snd kw)) in
  let T2 := add32 (Sigma0 (a s)) (Maj (a s) (b s) (c s)) in
  {| a := add32 T1 T2; b := a s; c := b s; d := c s;
     e := add32 (d s) T1; f := e s; g := f s; h := g s |}.

Definition compress (s : state) (block : list N) : state :=
  let r := fold_left round (combine K (schedule block)) s in
  {| a := add32 (a s) (a r); b := add32 (b s) (b r); c := add32 (c s) (c r);
     d := add32 (d s) (d r); e := add32 (e s) (e r); f := add32 (f s) (f r);
     g := add32 (g s) (g r); h := add32 (h s) (h r) |}.

(** [n] blocks of sixteen words each. *)
Fixpoint blocks (n : nat) (s : state) (ws : list N) : state :=
  match n with
  | O => s
  | S n' => blocks n' (compress s (take 16 ws)) (drop 16 ws)
  end.

Definition initial : state :=
  {| a := nth 0 H0 0%N; b := nth 1 H0 0%N; c := nth 2 H0 0%N; d := nth 3 H0 0%N;
     e := nth 4 H0 0%N; f := nth 5 H0 0%N; g := nth 6 H0 0%N; h := nth 7 H0 0%N |}.

Definition hex_digit (n : N) : ascii :=
  if (n <? 10)%N then PyStr.chr (48 + n)%N else PyStr.chr (87 + n)%N.

Fixpoint hex (k : nat) (x : N) : string :=
  match k with
  | O => EmptyString
  | S k' => hex k' (x / 16)%N +:+ String (hex_digit (x mod 16)%N) EmptyString
  end.

Definition hexdigest (msg : list N) : string :=
  let ws := words (pad msg) in
  let s := blocks (length ws / 16) initial ws in
  hex 8 (a s) +:+ hex 8 (b s) +:+ hex 8 (c s) +:+ hex 8 (d s)
  +:+ hex 8 (e s) +:+ hex 8 (f s) +:+ hex 8 (g s) +:+ hex 8 (h s).
End SHA256.

(** [hashlib.sha256(content.encode()).hexdigest()] *)
Definition compute_content_hash (content : list N) : M string :=
  bytes ← encode content; mret (SHA256.hexdigest bytes).

(** The code points of a text of this development, all below 256. *)
Fixpoint code_points (s : string) : list N :=
  match s with
  | EmptyString => []
  | String c r => PyStr.ord c :: code_points r
  end.

(** [s[:n]] *)
Fixpoint str_take (n : nat) (s : string) : string :=
  match n, s with
  | S n', String c r => String c (str_take n' r)
  | _, _ => EmptyString
  end.

Inductive LoadError := ProfileNotFound | FailedToLoadProfile.

(** What the method returns: an error dict, or a verdict dict with its
    [contentHash]. The key [checkedAt], the reading of the clock, is left
    out: it is no function of the arguments and cannot raise. *)
Inductive RunResult :=
| ErrorDict (e : LoadError)
| VerdictDict (v : Verdict.t) (contentHash : string).

(** What is at [profile_path]: nothing ([None]), a file that [json.load]
    rejects ([Some None]), or a decoded document. *)
Definition ProfileFile := option (option BrandProfile).

(** The end of the return statement: [compute_content_hash(content)[:16]]
    is evaluated, outside any [try], once the other keys are there; the
    content is given by its code points. *)
Definition verdict_dict (v : Verdict.t) (content : list N) : M RunResult :=
  digest ← compute_content_hash content;
  mret (VerdictDict v (str_take 16 digest)).

Definition BrandCheckerTool_run (file : ProfileFile) (content : string) : M RunResult :=
  match file with
  | None => Returned (ErrorDict ProfileNotFound)
  | Some None => Returned (ErrorDict FailedToLoadProfile)
  | Some (Some data) =>
      match model_validate data with
      | Raised _ => Returned (ErrorDict FailedToLoadProfile)
      | Returned profile =>
          v ← evaluate profile content; verdict_dict v (code_points content)
      end
  end.

(** ** [CheckNeverRulesTool._run] *)

Module CheckNeverRules.
Record result := mk {
  violated : list string;
  passed : list string;
  has_violations : bool;
  violation_count : nat }.
End CheckNeverRules.

Definition CheckNeverRulesTool_run (content : string) (never_rules : list string)
  : CheckNeverRules.result :=
  let violated := List.filter (contains_phrase content) never_rules in
  let passed := List.filter (λ rule, negb (contains_phrase content rule)) never_rules in
  {| CheckNeverRules.violated := py_sorted String.leb violated;
     CheckNeverRules.passed := py_sorted String.leb passed;
     CheckNeverRules.has_violations := bool_decide (0 < length violated)%nat;
     CheckNeverRules.violation_count := length violated |}.

(** ** [crew.py]: [SimpleBrandChecker] *)




(** [r.get("status")]: an error dict has no such key. *)
Definition result_status (r : RunResult) : option BrandAlignmentStatus :=
  match r with
  | ErrorDict _ => None
  | VerdictDict v _ => Some (Verdict.status v)
  end.

(** [sum(1 for r in results if r.get("status") == s)] *)
Definition count_status (s : BrandAlignmentStatus) (results : list RunResult) : nat :=
  length (List.filter (λ r, bool_decide (result_status r = Some s)) results).

(** [[i for i, r in enumerate(results) if r.get("status") == s]], the
    enumeration starting at [start]. *)
Fixpoint indices_with_status (s : BrandAlignmentStatus) (start : nat)
         (results : list RunResult) : list nat :=
  match results with
  | [] => []
  | r :: rest =>
      if bool_decide (result_status r = Some s)
      then start :: indices_with_status s (S start) rest
      else indices_with_status s (S start) rest
  end.

(** The summary dict. [health_score] is kept as the exact value that the
    method passes to [round(_, 1)]; the rounding itself is not modelled. *)
Module Summary.
Record t := mk {
  total : nat;
  on_brand : nat;
  borderline : nat;
  off_brand : nat;
  health_score_unrounded : Q;
  needs_attention : list nat }.
End Summary.

Definition SimpleBrandChecker_get_summary (results : list RunResult) : M Summary.t :=
  let on_brand := count_status ON_BRAND results in
  let borderline := count_status BORDERLINE results in
  let off_brand := count_status OFF_BRAND results in
  let total := length results in
  health_score ← (if bool_decide (0 < total)%nat
                  then truediv (on_brand * 100 + borderline * 50) total
                  else Returned 0%Q);
  mret {| Summary.total := total;
          Summary.on_brand := on_brand;
          Summary.borderline := borderline;
          Summary.off_brand := off_brand;
          Summary.health_score_unrounded := health_score;
          Summary.needs_attention := indices_with_status OFF_BRAND 0 results |}.

(** ** [main.py]: the exit codes *)













(** ** [models.py]: the response model *)

(** [BrandExplanation]: [text] has [min_length=1]. *)
Definition BrandExplanation_valid (e : BrandExplanation) : bool :=
  bool_decide (1 ≤ String.length (text e))%nat.

(** The field constraints of [BrandCheckResponse] on the keys of the
    verdict dict that are modelled: [explanations] holds one to three
    valid explanations and [confidence] lies between 0 and 100. *)
Definition BrandCheckResponse_valid (v : Verdict.t) : bool :=
  forallb BrandExplanation_valid (Verdict.explanations v)
  && bool_decide (1 ≤ length (Verdict.explanations v) ≤ 3)%nat
  && bool_decide (0 ≤ Verdict.confidence v ≤ 100)%Z.

(** ** Sample profiles and contents *)

Definition scenario1_profile : BrandProfile :=
  {| name := "Acme"; version := "1.0.0";
     values := ["innovative"; "bold"];
     voice_descriptors := ["confident"];
     tone_acceptable := []; tone_unacceptable := [];
     never_rules := ["guaranteed results"];
     examples := []; description := None |}.

Definition scenario1_content : string := "We offer GUARANTEED   Results today".

Definition scenario1_after_never_rule : Locals :=
  mkLocals [prohibited_content "guaranteed results"] OFF_BRAND 95
           ["guaranteed results"] [] [] 0 0 [] [] 0 0 0.

Definition scenario2_profile : BrandProfile :=
  {| name := "Acme"; version := "1.0.0";
     values := ["innovative"; "bold"];
     voice_descriptors := ["confident"];
     tone_acceptable := []; tone_unacceptable := [];
     never_rules := []; examples := []; description := None |}.

Definition scenario2_content : string := "Our prices are low".

Definition scenario2_after_example : Locals := initial_locals.

Definition scenario2_after_alignment : Locals :=
  mkLocals [] BORDERLINE 70 [] [] [] 0 0 [] [] (0 # 2) 0 (((0 # 2) + 0) / 2).

Definition scenario3_profile : BrandProfile :=
  {| name := "Acme"; version := "1.0.0";
     values := ["innovative"; "bold"];
     voice_descriptors := ["confident"];
     tone_acceptable := []; tone_unacceptable := [];
     never_rules := [];
     examples := [mkBrandExample "buy now cheap deal" bad None];
     description := None |}.

Definition scenario3_content : string := "Buy now, cheap deal!".

Definition scenario3_after_tone : Locals := initial_locals.

Definition scenario3_after_example : Locals :=
  mkLocals [resembles_off_brand CRITICAL] OFF_BRAND 85 [] [] [] 0 (4 # 4)
           [] [] 0 0 0.

Definition empty_rule_profile : BrandProfile :=
  {| name := "Acme"; version := "1.0.0";
     values := ["innovative"; "bold"];
     voice_descriptors := ["confident"];
     tone_acceptable := []; tone_unacceptable := [];
     never_rules := [""];
     examples := []; description := None |}.

Definition scenario4_profile : BrandProfile :=
  {| name := "Acme"; version := "2.10.3";
     values := ["innovative"; "bold"; "honest"; "simple"];
     voice_descriptors := ["confident"];
     tone_acceptable := ["warm"]; tone_unacceptable := ["aggressive"];
     never_rules := ["guaranteed results"];
     examples := [mkBrandExample "buy now cheap deal" bad None;
                  mkBrandExample "bold and honest" good None];
     description := None |}.

Definition scenario4_content : string :=
  "Innovative, bold and honest: a confident, warm brand".

(** A document with no values: rejected by [model_validate], accepted by the
    stages. *)
Definition no_values_profile : BrandProfile :=
  {| name := "Acme"; version := "1.0.0";
     values := []; voice_descriptors := [];
     tone_acceptable := []; tone_unacceptable := [];
     never_rules := []; examples := []; description := None |}.

(** ** The scores in double precision *)

(** What stage 4 decides from an on-brand status, given the numbers of
    aligned values [a] out of [n] and of aligned voice descriptors [b] out
    of [m]: the branch of the method body, on exact scores. *)
Definition alignment_outcome (a n b m : nat) : BrandAlignmentStatus * Z :=
  let value_score := Z.of_nat a # Pos.of_nat (Nat.max n 1) in
  let voice_score := Z.of_nat b # Pos.of_nat (Nat.max m 1) in
  let combined_score := ((value_score + voice_score) / 2)%Q in
  if Qltb combined_score (3 # 10) then (BORDERLINE, 70%Z)
  else if Qltb combined_score (1 # 2) then (BORDERLINE, 75%Z)
  else (ON_BRAND, (80 + py_int (combined_score * 15))%Z).

(** The tests the method body makes on one quotient [i / u]: above 0.3,
    above 0.5, below 0.5. *)
Definition quotient_tests (i u : nat) : bool * bool * bool :=
  let q := Z.of_nat i # Pos.of_nat u in
  (Qltb (3 # 10) q, Qltb (1 # 2) q, Qltb q (1 # 2)).

Module Binary64.
Import PrimFloat.
#[local] Set Warnings "-inexact-float".

(** [float(n)] of a list length. *)
Definition of_nat (n : nat) : float := of_uint63 (Uint63.of_Z (Z.of_nat n)).

(** [int(x)] for [0 <= x < bound + 1]: the largest integer not above [x]. *)
Fixpoint int_upto (bound : nat) (x : float) : Z :=
  match bound with
  | O => 0%Z
  | S k => if leb (of_nat bound) x then Z.of_nat bound else int_upto k x
  end.

Definition alignment_outcome (a n b m : nat) : BrandAlignmentStatus * Z :=
  let value_score := (of_nat a / of_nat (Nat.max n 1))%float in
  let voice_score := (of_nat b / of_nat (Nat.max m 1))%float in
  let combined_score := ((value_score + voice_score) / 2)%float in
  if ltb combined_score 0.3 then (BORDERLINE, 70%Z)
  else if ltb combined_score 0.5 then (BORDERLINE, 75%Z)
  else (ON_BRAND, (80 + int_upto 15 (combined_score * 15)%float)%Z).

Definition quotient_tests (i u : nat) : bool * bool * bool :=
  let q := (of_nat i / of_nat u)%float in
  (ltb 0.3 q, ltb 0.5 q, ltb q 0.5).
End Binary64.

(** The two readings agree for all [a <= n], [b <= m] with [n], [m] in the
    given ranges. *)
Definition alignment_agrees_upto (nmax mmax : nat) : bool :=
  forallb (λ n, forallb (λ a, forallb (λ m, forallb (λ b,
    bool_decide (Binary64.alignment_outcome a n b m = alignment_outcome a n b m))
    (seq 0 (S m))) (seq 1 mmax)) (seq 0 (S n))) (seq 1 nmax).

Definition quotients_agree_upto (umax : nat) : bool :=
  forallb (λ u, forallb (λ i,
    bool_decide (Binary64.quotient_tests i u = quotient_tests i u))
    (seq 0 (S u))) (seq 1 umax).

(** ** Vocabulary of the properties *)

Close Scope string_scope.

(** The order of escalation: on-brand, then borderline, then off-brand. *)
Definition status_rank (s : BrandAlignmentStatus) : nat :=
  match s with ON_BRAND => 0 | BORDERLINE => 1 | OFF_BRAND => 2 end.

(** From [s] to [s'] the status is kept or escalated. *)
Definition escalates (s s' : BrandAlignmentStatus) : Prop :=
  (status_rank s ≤ status_rank s')%nat.

(** The share of [phrases] found in [content], over [max(len(phrases), 1)]. *)
Definition phrase_score (content : string) (phrases : list string) : Q :=
  Z.of_nat (length (List.filter (contains_phrase content) phrases))
  # Pos.of_nat (Nat.max (length phrases) 1).

Definition examples_of_type (ty : ExampleType) (exs : list BrandExample)
  : list BrandExample :=
  List.filter (λ e, bool_decide (ex_type e = ty)) exs.

(** [b] is the largest overlap of [content] with an example of type [ty],
    and 0 where there is no such example. *)
Definition is_max_similarity (ty : ExampleType) (content : string)
           (exs : list BrandExample) (b : Q) : Prop :=
  (examples_of_type ty exs = [] → b = 0%Q)
  ∧ (∀ e, e ∈ examples_of_type ty exs →
          ∃ q, calculate_word_overlap content (ex_content e) = Returned q
               ∧ (q <= b)%Q)
  ∧ (examples_of_type ty exs ≠ [] →
     ∃ e q, e ∈ examples_of_type ty exs
            ∧ calculate_word_overlap content (ex_content e) = Returned q
            ∧ (q == b)%Q).

(** The value the function returns, as one expression. *)
Definition overlap_value (text1 text2 : string) : Q :=
  if bool_decide (tokenize text1 = ∅) || bool_decide (tokenize text2 = ∅) then 0%Q
  else Z.of_nat (size (tokenize text1 ∩ tokenize text2))
       # Pos.of_nat (size (tokenize text1 ∪ tokenize text2)).

Abbreviation severity_rank := (λ x : BrandExplanation, severity_order (severity x)).

(** What an explanation stage may do: leave the decision alone and append
    at most one informational explanation, where fewer than three were
    there. *)
Definition adds_info_only (l l' : Locals) : Prop :=
  status l' = status l ∧ confidence l' = confidence l
  ∧ (explanations l' = explanations l
     ∨ (length (explanations l) < 3)%nat
       ∧ ∃ e, severity e = INFO ∧ explanations l' = explanations l ++ [e]).

(** The status is kept or escalated, the explanation list only grows and
    stays within three entries, and an off-brand decision at confidence 95
    is left as it is. *)
Definition carries_on (l l' : Locals) : Prop :=
  escalates (status l) (status l')
  ∧ (∃ k, explanations l' = explanations l ++ k)
  ∧ ((length (explanations l) ≤ 3)%nat → (length (explanations l') ≤ 3)%nat)
  ∧ (status l = OFF_BRAND → status l' = OFF_BRAND)
  ∧ (status l = OFF_BRAND → confidence l = 95%Z → confidence l' = 95%Z).

(** One run of the method body on [(p, c)]: the local variables after each
    of the eight accumulating stages, and the returned verdict. *)
Record pipeline_run (p : BrandProfile) (c : string)
       (l1 l2 l3 l4 l5 l6 l7 l8 : Locals) (v : Verdict.t) : Prop := {
  run_never_rule : never_rule_stage p c initial_locals = Returned l1;
  run_tone : tone_stage p c l1 = Returned l2;
  run_example : example_stage p c l2 = Returned l3;
  run_alignment : alignment_stage p c l3 = Returned l4;
  run_positive : positive_stage l4 = Returned l5;
  run_voice_fill : voice_fill_stage p c l5 = Returned l6;
  run_tone_fill : tone_fill_stage l6 = Returned l7;
  run_final_guarantee : final_guarantee_stage l7 = Returned l8;
  run_accumulated :
    run_stages (decision_stages p c ++ explanation_stages p c) initial_locals
    = Returned l8;
  run_trace :
    trace_stages (stages p c) initial_locals
    = Returned
        [initial_locals; l1; l2; l3; l4; l5; l6; l7; l8;
         set_explanations (sort_by_key severity_rank (explanations l8)) l8;
         set_explanations
           (take 3 (sort_by_key severity_rank (explanations l8))) l8];
  run_verdict : evaluate p c = Returned v;
  run_status : Verdict.status v = status l8;
  run_confidence : Verdict.confidence v = confidence l8;
  run_explanations :
    Verdict.explanations v
    = take 3 (sort_by_key severity_rank (explanations l8));
}.

(** Lexicographic order of strings by code point, as [sorted] uses it. *)
Definition string_le (a b : string) : Prop := String.leb a b = true.

(** The explanations of the three deciding stages, in the order they are
    appended: the first violated never-rule, the first unacceptable tone
    found, the resemblance to bad examples. *)
Definition decisive_explanations (nv ut : list string) (bad : Q)
  : list BrandExplanation :=
  match nv with first :: _ => [prohibited_content first] | [] => [] end
  ++ match ut with first :: _ => [unacceptable_tone first] | [] => [] end
  ++ (if Qltb (3 # 10) bad
      then [resembles_off_brand (if Qltb (1 # 2) bad then CRITICAL else WARNING)]
      else []).

(** What stage 4 decides from an on-brand status and the two scores. *)
Definition alignment_verdict (vs vos : Q) : BrandAlignmentStatus * Z :=
  let cs := ((vs + vos) / 2)%Q in
  if Qltb cs (3 # 10) then (BORDERLINE, 70%Z)
  else if Qltb cs (1 # 2) then (BORDERLINE, 75%Z)
  else (ON_BRAND, (80 + py_int (cs * 15))%Z).

(** Status and confidence as a table over the audit details: the violated
    never-rules, the unacceptable tones found, the similarity to bad
    examples, and the value and voice scores. *)
Definition decision_table (nv ut : list string) (bad vs vos : Q)
  : BrandAlignmentStatus * Z :=
  if is_nonempty nv then (OFF_BRAND, 95%Z)
  else if is_nonempty ut then (OFF_BRAND, 90%Z)
  else if Qltb (3 # 10) bad
       then (if Qltb (1 # 2) bad then OFF_BRAND else BORDERLINE, 85%Z)
       else alignment_verdict vs vos.

(** [p'] is at least as strict as [p]: the same values and voice
    descriptors, and every never-rule, unacceptable tone and bad example of
    [p] is one of [p']. *)
Definition at_least_as_strict (p p' : BrandProfile) : Prop :=
  values p' = values p
  ∧ voice_descriptors p' = voice_descriptors p
  ∧ (∀ r, r ∈ never_rules p → r ∈ never_rules p')
  ∧ (∀ t, t ∈ tone_unacceptable p → t ∈ tone_unacceptable p')
  ∧ (∀ e, e ∈ examples_of_type bad (examples p) →
          e ∈ examples_of_type bad (examples p')).

(** No character of [s] is in the class [cls]. *)
Fixpoint none_in (cls : ascii → bool) (s : string) : bool :=
  match s with
  | EmptyString => true
  | String c r => negb (cls c) && none_in cls r
  end.

(** Whitespace occurs in [s] only as single spaces; [in_run] tells that a
    whitespace character comes just before [s]. *)
Fixpoint single_spaced (in_run : bool) (s : string) : bool :=
  match s with
  | EmptyString => true
  | String c r =>
      if PyStr.isspace c
      then negb in_run && Ascii.eqb c " " && single_spaced true r
      else single_spaced false r
  end.

Definition starts_nonspace (s : string) : bool :=
  match s with
  | EmptyString => true
  | String c _ => negb (PyStr.isspace c)
  end.

Fixpoint ends_nonspace (s : string) : bool :=
  match s with
  | EmptyString => true
  | String c EmptyString => negb (PyStr.isspace c)
  | String _ r => ends_nonspace r
  end.




Definition is_error_dict (r : RunResult) : bool :=
  match r with ErrorDict _ => true | VerdictDict _ _ => false end.

(** The value that [get_summary] passes to [round(_, 1)]. *)
Definition health_value (results : list RunResult) : Q :=
  if bool_decide (0 < length results)%nat
  then Z.of_nat (count_status ON_BRAND results * 100
                 + count_status BORDERLINE results * 50)
       # Pos.of_nat (length results)
  else 0%Q.

(** A non-empty string of the digits 0 to 9. *)
Definition is_number (s : string) : bool :=
  PyStr.nonempty s && none_in (λ c, negb (is_digit c)) s.

Definition dot : string := String (PyStr.chr 46) EmptyString.
Definition newline : string := String (PyStr.chr 10) EmptyString.

(** Every explanation accumulated so far has a text. *)
Definition has_texts (l : Locals) : Prop :=
  Forall (λ e, BrandExplanation_valid e = true) (explanations l).




(** Two outcomes of [BrandCheckerTool._run] that differ at most in
    [contentHash], which is computed from the raw content: the same
    exception, the same error dict, or two verdict dicts with the same
    status, label, explanations, confidence, profile version and details. *)
Definition same_but_hash (a b : M RunResult) : Prop :=
  match a, b with
  | Returned (VerdictDict v _), Returned (VerdictDict v' _) => v = v'
  | Returned (ErrorDict e), Returned (ErrorDict e') => e = e'
  | Raised e, Raised e' => e = e'
  | _, _ => False
  end.

(** * Properties *)

(** ** The model on sample inputs *)

Example normalize_text_sample :
  normalize_text "  We  offer GUARANTEED   Results " = "we offer guaranteed results"%string.
Proof. vm_compute. reflexivity. Qed.

Example re_split_sample :
  PyStr.re_split_runs is_token_delimiter false "" ",a,,b,"
  = [""; "a"; "b"; ""]%string.
Proof. vm_compute. reflexivity. Qed.

Example tokenize_sample :
  bool_decide (tokenize "Hello, World! (hello)"
               = ({["hello"%string; "world"%string]} : gset string)) = true.
Proof. vm_compute. reflexivity. Qed.

Example contains_phrase_inside_word : contains_phrase "A resale offer" "Sale" = true.
Proof. vm_compute. reflexivity. Qed.

Example semver_samples :
  semver_match "2.10.3" = true ∧ semver_match "1.0" = false
  ∧ semver_match "1.0.0-beta" = false ∧ semver_match "v1.0.0" = false.
Proof. vm_compute. repeat split. Qed.

Example sorted_strings_sample :
  py_sorted String.leb ["b"; "a"; "B"; "ab"]%string = ["B"; "a"; "ab"; "b"]%string.
Proof. vm_compute. reflexivity. Qed.

Example word_overlap_sample :
  calculate_word_overlap "a b c" "b, c; d" = Returned (2 # 4).
Proof. vm_compute. reflexivity. Qed.

(** Digests of the empty message, of one block, of a message that needs a
    second block for its padding, and of a text with a character that
    takes two bytes (U+00E9). *)
Example sha256_samples :
  SHA256.hexdigest (code_points "")
  = "e3b0c44298fc1c149afbf4c8996fb92427ae41e4649b934ca495991b7852b855"%string
  ∧ SHA256.hexdigest (code_points "abc")
    = "ba7816bf8f01cfea414140de5dae2223b00361a396177a9cb410ff61f20015ad"%string
  ∧ SHA256.hexdigest
      (code_points "aaaaaaaaaaaaaaaaaaaaaaaaaaaaaaaaaaaaaaaaaaaaaaaaaaaaaaaa")
    = "b35439a4ac6f0948b6d6f9e3c6af0f5f590ce20f1bde7090ef7970686ec6738a"%string
  ∧ compute_content_hash [99; 97; 102; 233]%N
    = Returned
        "850f7dc43910ff890f8879c0ed26fe697c93a067ad93a7d50f466a7028a9bf4e"%string
  ∧ (digest ← compute_content_hash (code_points "buy now");
     mret (str_take 16 digest))
    = Returned "a7219a05dccdd3e8"%string.
Proof. vm_compute. repeat split. Qed.

Example scenario2_verdict :
  (v ← evaluate scenario2_profile scenario2_content;
   mret (Verdict.status v, Verdict.confidence v, length (Verdict.explanations v)))
  = Returned (BORDERLINE, 70%Z, 2%nat).
Proof. vm_compute. reflexivity. Qed.

Example scenario4_verdict :
  (v ← evaluate scenario4_profile scenario4_content;
   mret (Verdict.status v, Verdict.confidence v,
         severity <$> Verdict.explanations v))
  = Returned (ON_BRAND, 93%Z, [INFO; INFO]).
Proof. vm_compute. reflexivity. Qed.

(** ** Numbers *)

Lemma Qltb_lt a b : Qltb a b = true ↔ (a < b)%Q.
Proof.
  unfold Qltb. rewrite negb_true_iff, <- not_true_iff_false, Qle_bool_iff.
  split; [apply Qnot_le_lt | apply Qlt_not_le].
Qed.

Lemma Qltb_ge a b : Qltb a b = false ↔ (b <= a)%Q.
Proof.
  unfold Qltb. rewrite negb_false_iff. apply Qle_bool_iff.
Qed.

Lemma py_max_ub a b : (a <= py_max a b)%Q ∧ (b <= py_max a b)%Q.
Proof.
  unfold py_max. destruct (Qltb a b) eqn:E.
  - apply Qltb_lt in E. split; [by apply Qlt_le_weak | apply Qle_refl].
  - apply Qltb_ge in E. split; [apply Qle_refl | done].
Qed.

Lemma py_max_cases a b : py_max a b = a ∨ py_max a b = b.
Proof. unfold py_max. destruct (Qltb a b); auto. Qed.

Lemma py_int_floor x : (0 <= x)%Q → py_int x = Qfloor x.
Proof.
  destruct x as [n d]. unfold Qle, py_int, Qfloor. simpl. intros H.
  apply Z.quot_div_nonneg; lia.
Qed.

Lemma truediv_max_returns a n :
  truediv a (Nat.max n 1) = Returned (Z.of_nat a # Pos.of_nat (Nat.max n 1)).
Proof. destruct n as [|n]; [done|]. by destruct n. Qed.

Lemma length_ratio_bounds a n :
  (a ≤ Nat.max n 1)%nat →
  (0 <= Z.of_nat a # Pos.of_nat (Nat.max n 1))%Q
  ∧ (Z.of_nat a # Pos.of_nat (Nat.max n 1) <= 1)%Q.
Proof.
  intros H. unfold Qle. simpl. split; [lia|].
  rewrite Z.mul_1_r, Z.mul_1_l.
  replace (Z.pos (Pos.of_nat (Nat.max n 1))) with (Z.of_nat (Nat.max n 1)); lia.
Qed.

Lemma length_filter_le {A} (f : A → bool) (l : list A) :
  (length (List.filter f l) ≤ length l)%nat.
Proof. induction l as [|x l IH]; simpl; [done|]. destruct (f x); simpl; lia. Qed.

(** ** Sorting *)

Section SortFacts.
Context {A : Type} (key : A → nat).

Local Abbreviation le := (λ a b : A, (key a <=? key b)%nat).

Lemma insert_sorted_perm x (l : list A) : insert_sorted le x l ≡ₚ x :: l.
Proof.
  induction l as [|y l IH]; simpl; [done|].
  destruct (key x <=? key y)%nat; [done|].
  rewrite IH. apply Permutation_swap.
Qed.

Lemma sort_by_key_perm (l : list A) : sort_by_key key l ≡ₚ l.
Proof.
  unfold sort_by_key, py_sorted.
  induction l as [|x l IH]; simpl; [done|].
  by rewrite insert_sorted_perm, IH.
Qed.

Lemma sort_by_key_length (l : list A) : length (sort_by_key key l) = length l.
Proof. by rewrite sort_by_key_perm. Qed.

Local Abbreviation key_le := (key_le key).

Lemma insert_sorted_sorted x (l : list A) :
  StronglySorted key_le l → StronglySorted key_le (insert_sorted le x l).
Proof.
  induction 1 as [|y l Hl IH Hy]; simpl.
  - repeat constructor.
  - destruct (key x <=? key y)%nat eqn:E.
    + apply Nat.leb_le in E. constructor; [by constructor|].
      constructor; [done|].
      eapply Forall_impl; [exact Hy|]. unfold key_le. intros; simpl in *; lia.
    + apply Nat.leb_gt in E. constructor; [done|].
      rewrite insert_sorted_perm. constructor; [unfold key_le; lia | done].
Qed.

Lemma sort_by_key_sorted (l : list A) : StronglySorted key_le (sort_by_key key l).
Proof.
  unfold sort_by_key, py_sorted.
  induction l as [|x l IH]; simpl; [constructor|].
  by apply insert_sorted_sorted.
Qed.

Local Abbreviation with_key := (with_key key).

Lemma insert_sorted_with_key k x (l : list A) :
  StronglySorted key_le l →
  with_key k (insert_sorted le x l) = with_key k (x :: l).
Proof.
  induction 1 as [|y l Hl IH Hy]; [done|]. simpl.
  destruct (key x <=? key y)%nat eqn:E; [done|].
  apply Nat.leb_gt in E. simpl in *.
  destruct (key y =? k)%nat eqn:Ey, (key x =? k)%nat eqn:Ex;
    rewrite IH; try done.
  apply Nat.eqb_eq in Ey, Ex. lia.
Qed.

Lemma sort_by_key_stable k (l : list A) :
  with_key k (sort_by_key key l) = with_key k l.
Proof.
  induction l as [|x l IH]; [done|].
  change (sort_by_key key (x :: l))
    with (insert_sorted le x (sort_by_key key l)).
  rewrite insert_sorted_with_key by apply sort_by_key_sorted.
  simpl. by rewrite IH.
Qed.

Lemma sort_by_key_least_first x (l : list A) :
  key x = 0%nat → sort_by_key key (x :: l) = x :: sort_by_key key l.
Proof.
  intros Hx.
  change (sort_by_key key (x :: l))
    with (insert_sorted le x (sort_by_key key l)).
  destruct (sort_by_key key l); simpl; [done|]. by rewrite Hx.
Qed.
End SortFacts.

(** ** Strings *)

Lemma startswith_empty s : PyStr.startswith s "" = true.
Proof. by destruct s. Qed.

Lemma contains_empty s : PyStr.contains s "" = true.
Proof. destruct s; simpl; by rewrite ?startswith_empty. Qed.

Lemma lower_char_space c : PyStr.isspace c = true → PyStr.lower_char c = c.
Proof.
  destruct c as [[] [] [] [] [] [] [] []]; vm_compute; congruence.
Qed.

Lemma lstrip_lower_whitespace s :
  whitespace_only s = true → PyStr.lstrip (PyStr.lower s) = "".
Proof.
  induction s as [|c r IH]; simpl; [done|].
  intros [Hc Hr]%andb_true_iff.
  by rewrite (lower_char_space c Hc), Hc, IH.
Qed.

Lemma normalize_whitespace s : whitespace_only s = true → normalize_text s = "".
Proof.
  intros H. unfold normalize_text, PyStr.strip.
  by rewrite lstrip_lower_whitespace.
Qed.

Lemma contains_phrase_whitespace content phrase :
  whitespace_only phrase = true → contains_phrase content phrase = true.
Proof.
  intros H. unfold contains_phrase.
  rewrite (normalize_whitespace phrase H). apply contains_empty.
Qed.

(** ** Word overlap *)

Lemma tokenize_empty : tokenize "" = ∅.
Proof. reflexivity. Qed.

Lemma size_union_pos (X Y : gset string) : X ≠ ∅ → (0 < size (X ∪ Y))%nat.
Proof.
  intros HX.
  assert (size X ≠ 0%nat) by (by rewrite size_empty_iff; intros ?%leibniz_equiv).
  assert (size X ≤ size (X ∪ Y))%nat by apply subseteq_size, union_subseteq_l.
  lia.
Qed.


Lemma calculate_word_overlap_value a b :
  calculate_word_overlap a b = Returned (overlap_value a b).
Proof.
  unfold calculate_word_overlap, overlap_value.
  destruct (bool_decide (tokenize a = ∅)) eqn:Ea; [done|].
  destruct (bool_decide (tokenize b = ∅)) eqn:Eb; [done|]. simpl.
  apply bool_decide_eq_false in Ea.
  pose proof (size_union_pos _ (tokenize b) Ea) as Hpos.
  rewrite bool_decide_eq_true_2 by done.
  unfold truediv. by destruct (size (tokenize a ∪ tokenize b)); [lia|].
Qed.

Lemma overlap_value_comm a b : overlap_value a b = overlap_value b a.
Proof.
  unfold overlap_value.
  rewrite orb_comm.
  by rewrite (intersection_comm_L (tokenize a)), (union_comm_L (tokenize a)).
Qed.

Lemma overlap_value_range a b : (0 <= overlap_value a b)%Q ∧ (overlap_value a b <= 1)%Q.
Proof.
  unfold overlap_value.
  destruct (bool_decide (tokenize a = ∅)) eqn:Ea; [done|].
  destruct (bool_decide (tokenize b = ∅)) eqn:Eb; [done|]. simpl.
  apply bool_decide_eq_false in Ea.
  pose proof (size_union_pos _ (tokenize b) Ea) as Hpos.
  assert (size (tokenize a ∩ tokenize b) ≤ size (tokenize a ∪ tokenize b))%nat
    by (apply subseteq_size; etrans;
        [apply intersection_subseteq_l | apply union_subseteq_l]).
  unfold Qle. simpl. split; [lia|].
  rewrite Z.mul_1_r, Z.mul_1_l.
  replace (Z.pos (Pos.of_nat (size (tokenize a ∪ tokenize b))))
    with (Z.of_nat (size (tokenize a ∪ tokenize b))); lia.
Qed.

Lemma overlap_value_self a : tokenize a ≠ ∅ → (overlap_value a a == 1)%Q.
Proof.
  intros Ha. unfold overlap_value.
  rewrite bool_decide_eq_false_2 by done. simpl.
  rewrite (idemp_L (∩) (tokenize a)), (idemp_L (∪) (tokenize a)).
  assert (size (tokenize a) ≠ 0%nat)
    by (by rewrite size_empty_iff; intros ?%leibniz_equiv).
  unfold Qeq. simpl. lia.
Qed.

Lemma overlap_value_no_tokens a b :
  tokenize a = ∅ ∨ tokenize b = ∅ → overlap_value a b = 0%Q.
Proof.
  unfold overlap_value. intros [-> | ->].
  - by rewrite bool_decide_eq_true_2.
  - rewrite (bool_decide_eq_true_2 (∅ = ∅)) by done. by rewrite orb_true_r.
Qed.

(** ** Lists *)

Lemma filter_first {A} (f : A → bool) (l : list A) x rest :
  List.filter f l = x :: rest →
  ∃ i, l !! i = Some x ∧ f x = true
       ∧ ∀ j y, (j < i)%nat → l !! j = Some y → f y = false.
Proof.
  induction l as [|a l IH]; simpl; [done|].
  destruct (f a) eqn:Ea.
  - intros [= -> ?]. exists 0%nat. repeat split; [done|]. intros; lia.
  - intros [i (Hi & Hx & Hlt)]%IH. exists (S i). repeat split; [done..|].
    intros [|j] y Hj; simpl; [congruence|]. apply Hlt. lia.
Qed.

Lemma filter_nonempty {A} (f : A → bool) (l : list A) x :
  x ∈ l → f x = true → is_nonempty (List.filter f l) = true.
Proof.
  intros Hx Hf. induction Hx as [x l | x y l Hx IH]; simpl.
  - by rewrite Hf.
  - destruct (f y); simpl; auto.
Qed.

(** ** The stages, one at a time *)

Section StageFacts.
Variables (p : BrandProfile) (c : string).



Lemma never_rule_stage_spec l :
  ∃ l', never_rule_stage p c l = Returned l'
    ∧ never_violations l' = List.filter (contains_phrase c) (never_rules p)
    ∧ match never_violations l' with
      | first :: _ =>
          status l' = OFF_BRAND ∧ confidence l' = 95%Z
          ∧ explanations l' = explanations l ++ [prohibited_content first]
      | [] =>
          status l' = status l ∧ confidence l' = confidence l
          ∧ explanations l' = explanations l
      end.
Proof.
  unfold never_rule_stage. simpl.
  destruct (List.filter (contains_phrase c) (never_rules p)) as [|first rest] eqn:E;
    simpl; eexists; (split; [reflexivity|]); simpl; rewrite ?E; done.
Qed.

Lemma tone_stage_spec l :
  ∃ l', tone_stage p c l = Returned l'
    ∧ unacceptable_found l'
      = List.filter (contains_phrase c) (tone_unacceptable p)
    ∧ acceptable_found l'
      = List.filter (contains_phrase c) (tone_acceptable p)
    ∧ never_violations l' = never_violations l
    ∧ match unacceptable_found l' with
      | first :: _ =>
          status l' = OFF_BRAND
          ∧ confidence l' = Z.max (confidence l) 90
          ∧ explanations l'
            = if (length (explanations l) <? 3)%nat
              then explanations l ++ [unacceptable_tone first]
              else explanations l
      | [] =>
          status l' = status l ∧ confidence l' = confidence l
          ∧ explanations l' = explanations l
      end.
Proof.
  unfold tone_stage. simpl.
  destruct (List.filter (contains_phrase c) (tone_unacceptable p))
    as [|first rest] eqn:E; simpl.
  - eexists; (split; [reflexivity|]); simpl; rewrite ?E; done.
  - destruct (length (explanations l) <? 3)%nat eqn:Elen; simpl;
      eexists; (split; [reflexivity|]); simpl; rewrite ?E; done.
Qed.

Lemma similarity_step_value acc e :
  similarity_step c acc e
  = Returned (if decide (ex_type e = good)
              then (py_max (fst acc) (overlap_value c (ex_content e)), snd acc)
              else (fst acc, py_max (snd acc) (overlap_value c (ex_content e)))).
Proof. unfold similarity_step. by rewrite calculate_word_overlap_value. Qed.

Lemma similarity_loop_spec exs g0 b0 :
  ∃ g b, for_each (similarity_step c) (g0, b0) exs = Returned (g, b)
    ∧ (b0 <= b)%Q
    ∧ (∀ e, e ∈ exs → ex_type e = bad →
            (overlap_value c (ex_content e) <= b)%Q)
    ∧ (b = b0 ∨ ∃ e, e ∈ exs ∧ ex_type e = bad
                     ∧ b = overlap_value c (ex_content e)).
Proof.
  revert g0 b0. induction exs as [|e exs IH]; intros g0 b0; simpl.
  - exists g0, b0. split; [done|]. split; [apply Qle_refl|].
    split; [|by left]. by intros e ?%elem_of_nil.
  - rewrite similarity_step_value. simpl.
    destruct (decide (ex_type e = good)) as [Hty|Hty].
    + destruct (IH (py_max g0 (overlap_value c (ex_content e))) b0)
        as (g & b & -> & Hle & Hub & Hwit).
      exists g, b. split; [done|]. split; [done|]. split.
      * intros e' [->|He']%elem_of_cons Hbad; [congruence|by apply Hub].
      * destruct Hwit as [?|(e' & ? & ? & ?)]; [by left|right].
        exists e'. by rewrite elem_of_cons; auto.
    + assert (ex_type e = bad) as Hbad by (by destruct (ex_type e)).
      pose proof (py_max_ub b0 (overlap_value c (ex_content e))) as [Hb0 Hsim].
      destruct (IH g0 (py_max b0 (overlap_value c (ex_content e))))
        as (g & b & -> & Hle & Hub & Hwit).
      exists g, b. split; [done|]. split; [by eapply Qle_trans|]. split.
      * intros e' [->|He']%elem_of_cons Hbad'; [by eapply Qle_trans|by apply Hub].
      * destruct Hwit as [->|(e' & ? & ? & ?)].
        -- destruct (py_max_cases b0 (overlap_value c (ex_content e))) as [->| ->];
             [by left|right]. exists e. by rewrite elem_of_cons; auto.
        -- right. exists e'. by rewrite elem_of_cons; auto.
Qed.

Lemma bad_similarity_maximal exs b :
  (0 <= b)%Q →
  (∀ e, e ∈ exs → ex_type e = bad → (overlap_value c (ex_content e) <= b)%Q) →
  (b = 0%Q ∨ ∃ e, e ∈ exs ∧ ex_type e = bad ∧ b = overlap_value c (ex_content e)) →
  is_max_similarity bad c exs b.
Proof.
  intros H0 Hub Hwit. unfold is_max_similarity, examples_of_type.
  split; [|split].
  - intros Hnone. destruct Hwit as [?|(e & He & Hbad & _)]; [done|].
    assert (e ∈ List.filter (λ e, bool_decide (ex_type e = bad)) exs) as Hin.
    { apply list_elem_of_In, filter_In. rewrite <- list_elem_of_In.
      by rewrite bool_decide_eq_true. }
    rewrite Hnone in Hin. by apply elem_of_nil in Hin.
  - intros e [He Hbad]%list_elem_of_In%filter_In.
    apply list_elem_of_In in He. apply bool_decide_eq_true in Hbad.
    exists (overlap_value c (ex_content e)).
    split; [apply calculate_word_overlap_value | by apply Hub].
  - intros Hsome.
    destruct (List.filter (λ e, bool_decide (ex_type e = bad)) exs)
      as [|e0 rest] eqn:E; [done|].
    assert (e0 ∈ exs ∧ ex_type e0 = bad) as [He0 Hbad0].
    { assert (In e0 (List.filter (λ e, bool_decide (ex_type e = bad)) exs)) as Hin
        by (rewrite E; by left).
      apply filter_In in Hin as [? ?%bool_decide_eq_true].
      by rewrite list_elem_of_In. }
    destruct Hwit as [->|(e & He & Hbad & ->)].
    + exists e0, (overlap_value c (ex_content e0)).
      split; [by left|]. split; [apply calculate_word_overlap_value|].
      apply Qle_antisym; [by apply Hub | apply overlap_value_range].
    + exists e, (overlap_value c (ex_content e)).
      split; [|split; [apply calculate_word_overlap_value | reflexivity]].
      rewrite <- E. apply list_elem_of_In, filter_In.
      rewrite <- list_elem_of_In. by rewrite bool_decide_eq_true.
Qed.

Lemma example_stage_spec l :
  ∃ l', example_stage p c l = Returned l'
    ∧ is_max_similarity bad c (examples p) (bad_similarity l')
    ∧ never_violations l' = never_violations l
    ∧ unacceptable_found l' = unacceptable_found l
    ∧ if Qltb (3 # 10) (bad_similarity l')
      then status l'
           = (if decide (status l = OFF_BRAND) then OFF_BRAND
              else if Qltb (1 # 2) (bad_similarity l') then OFF_BRAND
                   else BORDERLINE)
           ∧ confidence l' = Z.max (confidence l) 80
           ∧ explanations l'
             = if (length (explanations l) <? 3)%nat
               then explanations l
                    ++ [resembles_off_brand
                          (if Qltb (1 # 2) (bad_similarity l')
                           then CRITICAL else WARNING)]
               else explanations l
      else status l' = status l ∧ confidence l' = confidence l
           ∧ explanations l' = explanations l.
Proof.
  unfold example_stage.
  destruct (similarity_loop_spec (examples p) 0%Q 0%Q)
    as (g & b & -> & H0 & Hub & Hwit). simpl.
  pose proof (bad_similarity_maximal _ _ H0 Hub Hwit) as Hmax.
  destruct (Qltb (3 # 10) b) eqn:E3; simpl.
  - destruct (decide (status l = OFF_BRAND)) as [Hs|Hs].
    + rewrite (bool_decide_eq_true_2 _ Hs). simpl.
      destruct (length (explanations l) <? 3)%nat eqn:Elen; simpl;
        eexists; (split; [reflexivity|]); simpl; rewrite E3, ?Elen; done.
    + rewrite (bool_decide_eq_false_2 _ Hs). simpl.
      destruct (length (explanations l) <? 3)%nat eqn:Elen; simpl;
        eexists; (split; [reflexivity|]); simpl; rewrite E3, ?Elen; done.
  - eexists; (split; [reflexivity|]); simpl; rewrite E3; done.
Qed.
End StageFacts.

Section LaterStageFacts.
Variables (p : BrandProfile) (c : string).

Lemma phrase_score_range phrases :
  (0 <= phrase_score c phrases)%Q ∧ (phrase_score c phrases <= 1)%Q.
Proof.
  apply length_ratio_bounds.
  pose proof (length_filter_le (contains_phrase c) phrases). lia.
Qed.

Lemma mean_range x y :
  (0 <= x)%Q ∧ (x <= 1)%Q → (0 <= y)%Q ∧ (y <= 1)%Q →
  (0 <= (x + y) / 2)%Q ∧ ((x + y) / 2 <= 1)%Q.
Proof.
  intros [Hx0 Hx1] [Hy0 Hy1].
  assert (0 <= x + y)%Q by (apply (Qplus_le_compat 0 x 0 y); done).
  assert (x + y <= 2)%Q by (apply (Qplus_le_compat x 1 y 1); done).
  split.
  - apply Qle_shift_div_l; [done|]. by rewrite Qmult_0_l.
  - apply Qle_shift_div_r; [done|]. done.
Qed.

Lemma alignment_stage_spec l :
  ∃ l', alignment_stage p c l = Returned l'
    ∧ explanations l' = explanations l
    ∧ never_violations l' = never_violations l
    ∧ unacceptable_found l' = unacceptable_found l
    ∧ bad_similarity l' = bad_similarity l
    ∧ value_score l' = phrase_score c (values p)
    ∧ voice_score l' = phrase_score c (voice_descriptors p)
    ∧ combined_score l' = ((value_score l' + voice_score l') / 2)%Q
    ∧ if decide (status l = ON_BRAND)
      then if Qltb (combined_score l') (3 # 10)
           then status l' = BORDERLINE ∧ confidence l' = 70%Z
           else if Qltb (combined_score l') (1 # 2)
                then status l' = BORDERLINE ∧ confidence l' = 75%Z
                else status l' = ON_BRAND
                     ∧ confidence l' = (80 + py_int (combined_score l' * 15))%Z
      else status l' = status l ∧ confidence l' = confidence l.
Proof.
  unfold alignment_stage. rewrite !truediv_max_returns. simpl.
  fold (phrase_score c (values p)). fold (phrase_score c (voice_descriptors p)).
  destruct (decide (status l = ON_BRAND)) as [Hs|Hs].
  - rewrite (bool_decide_eq_true_2 _ Hs).
    destruct (Qltb _ (3 # 10)) eqn:E3; simpl.
    { eexists; (split; [reflexivity|]); simpl; rewrite E3; done. }
    destruct (Qltb _ (1 # 2)) eqn:E5; simpl;
      eexists; (split; [reflexivity|]); simpl; rewrite E3, E5; done.
  - rewrite (bool_decide_eq_false_2 _ Hs).
    eexists; (split; [reflexivity|]); done.
Qed.

Lemma append_info_spec e l :
  severity e = INFO → (length (explanations l) < 3)%nat →
  adds_info_only l (append_explanation e l)
  ∧ explanations (append_explanation e l) ≠ [].
Proof.
  intros He Hlen. unfold adds_info_only. simpl. split.
  - do 2 (split; [done|]). right. split; [done|]. by exists e.
  - by destruct (explanations l).
Qed.

Lemma adds_info_only_refl l : adds_info_only l l.
Proof. unfold adds_info_only. auto. Qed.

Lemma positive_stage_spec l :
  ∃ l', positive_stage l = Returned l'
    ∧ adds_info_only l l' ∧ explanations l' ≠ [].
Proof.
  unfold positive_stage.
  destruct (explanations l) as [|e0 rest] eqn:E; simpl.
  - assert (length (explanations l) < 3)%nat by (rewrite E; simpl; lia).
    destruct (Qltb (3 # 10) (good_similarity l));
      [|destruct (Qltb (1 # 2) (value_score l))];
      (eexists; split; [reflexivity | by apply append_info_spec]).
  - exists l. rewrite E. split; [done|]. split; [apply adds_info_only_refl|done].
Qed.

Lemma voice_fill_stage_spec l :
  ∃ l', voice_fill_stage p c l = Returned l' ∧ adds_info_only l l'.
Proof.
  unfold voice_fill_stage.
  destruct (length (explanations l) <? 3)%nat eqn:Elen; simpl;
    [|exists l; split; [done|apply adds_info_only_refl]].
  apply Nat.ltb_lt in Elen.
  destruct (Qltb (voice_score l) (1 # 2)); simpl;
    [|exists l; split; [done|apply adds_info_only_refl]].
  destruct (bool_decide (status l = OFF_BRAND)); simpl;
    [exists l; split; [done|apply adds_info_only_refl]|].
  destruct (List.filter _ (voice_descriptors p)); simpl;
    [exists l; split; [done|apply adds_info_only_refl]|].
  eexists; split; [reflexivity | by apply append_info_spec].
Qed.

Lemma tone_fill_stage_spec l :
  ∃ l', tone_fill_stage l = Returned l' ∧ adds_info_only l l'.
Proof.
  unfold tone_fill_stage.
  destruct (length (explanations l) <? 3)%nat eqn:Elen; simpl;
    [|exists l; split; [done|apply adds_info_only_refl]].
  apply Nat.ltb_lt in Elen.
  destruct (acceptable_found l); simpl;
    [exists l; split; [done|apply adds_info_only_refl]|].
  eexists; split; [reflexivity | by apply append_info_spec].
Qed.

Lemma final_guarantee_stage_spec l :
  ∃ l', final_guarantee_stage l = Returned l'
    ∧ adds_info_only l l' ∧ explanations l' ≠ [].
Proof.
  unfold final_guarantee_stage.
  destruct (explanations l) as [|e0 rest] eqn:E; simpl.
  - assert (length (explanations l) < 3)%nat by (rewrite E; simpl; lia).
    eexists; split; [reflexivity | by apply append_info_spec].
  - exists l. rewrite E. split; [done|]. split; [apply adds_info_only_refl|done].
Qed.
End LaterStageFacts.

(** ** The whole method body *)

Lemma status_display_total s : ∃ label, dict_getitem status_display s = Returned label.
Proof. destruct s; eexists; reflexivity. Qed.



Lemma pipeline_run_exists p c :
  ∃ l1 l2 l3 l4 l5 l6 l7 l8 v, pipeline_run p c l1 l2 l3 l4 l5 l6 l7 l8 v.
Proof.
  destruct (never_rule_stage_spec p c initial_locals) as (l1 & E1 & _).
  destruct (tone_stage_spec p c l1) as (l2 & E2 & _).
  destruct (example_stage_spec p c l2) as (l3 & E3 & _).
  destruct (alignment_stage_spec p c l3) as (l4 & E4 & _).
  destruct (positive_stage_spec l4) as (l5 & E5 & _).
  destruct (voice_fill_stage_spec p c l5) as (l6 & E6 & _).
  destruct (tone_fill_stage_spec l6) as (l7 & E7 & _).
  destruct (final_guarantee_stage_spec l7) as (l8 & E8 & _).
  destruct (status_display_total (status l8)) as (label & El).
  assert (run_stages (decision_stages p c ++ explanation_stages p c) initial_locals
          = Returned l8) as Hacc.
  { simpl. rewrite E1; simpl. rewrite E2; simpl. rewrite E3; simpl.
    rewrite E4; simpl. rewrite E5; simpl. rewrite E6; simpl.
    rewrite E7; simpl. by rewrite E8. }
  exists l1, l2, l3, l4, l5, l6, l7, l8. eexists.
  split; try eassumption.
  - unfold stages. simpl. rewrite E1; simpl. rewrite E2; simpl.
    rewrite E3; simpl. rewrite E4; simpl. rewrite E5; simpl.
    rewrite E6; simpl. rewrite E7; simpl. by rewrite E8.
  - assert (run_stages (stages p c) initial_locals
            = Returned (set_explanations
                          (take 3 (sort_by_key severity_rank (explanations l8))) l8))
      as Hall.
    { unfold stages. simpl. rewrite E1; simpl. rewrite E2; simpl.
      rewrite E3; simpl. rewrite E4; simpl. rewrite E5; simpl.
      rewrite E6; simpl. rewrite E7; simpl. by rewrite E8. }
    unfold evaluate. rewrite Hall.
    cbn -[dict_getitem status_display sort_by_key take].
    rewrite El. reflexivity.
  - done.
  - done.
  - done.
Qed.

(** Reading a stage lemma at the states of a run. *)
Ltac at_run spec Hrun :=
  let l' := fresh "l'" in
  let E := fresh "E" in
  let H := fresh "H" in
  destruct spec as (l' & E & H);
  rewrite Hrun in E; injection E as <-.


(** ** What every stage after the first keeps *)


Lemma escalates_refl s : escalates s s.
Proof. unfold escalates. lia. Qed.

Lemma escalates_off s : escalates s OFF_BRAND.
Proof. unfold escalates. destruct s; simpl; lia. Qed.

Lemma carries_on_refl l : carries_on l l.
Proof.
  unfold carries_on. split; [apply escalates_refl|].
  split; [exists []; by rewrite app_nil_r|]. auto.
Qed.

Lemma carries_on_trans l l' l'' :
  carries_on l l' → carries_on l' l'' → carries_on l l''.
Proof.
  intros (He & [k Hk] & Hlen & Hoff & Hconf) (He' & [k' Hk'] & Hlen' & Hoff' & Hconf').
  unfold carries_on, escalates in *. split; [lia|].
  split; [exists (k ++ k'); by rewrite Hk', Hk, app_assoc|]. auto.
Qed.

Lemma grown_explanations l es (cap : bool) e :
  cap = (length es <? 3)%nat →
  explanations l = (if cap then es ++ [e] else es) →
  (∃ k, explanations l = es ++ k)
  ∧ ((length es ≤ 3)%nat → (length (explanations l) ≤ 3)%nat).
Proof.
  intros -> ->. destruct (length es <? 3)%nat eqn:E.
  - apply Nat.ltb_lt in E. split; [by exists [e]|]. rewrite length_app. simpl. lia.
  - split; [exists []; by rewrite app_nil_r | done].
Qed.

Lemma adds_info_only_carries l l' : adds_info_only l l' → carries_on l l'.
Proof.
  intros (Hs & Hc & He). unfold carries_on. rewrite Hs, Hc.
  split; [apply escalates_refl|].
  destruct He as [-> | (Hlen & e & _ & ->)].
  - split; [exists []; by rewrite app_nil_r|]. auto.
  - split; [by exists [e]|]. rewrite length_app. simpl.
    repeat split; auto. lia.
Qed.

Lemma carries_on_elem l l' e :
  carries_on l l' → e ∈ explanations l → e ∈ explanations l'.
Proof. intros (_ & [k ->] & _) He. apply elem_of_app. by left. Qed.

Section Carrying.
Variables (p : BrandProfile) (c : string).

Lemma tone_stage_carries l l' : tone_stage p c l = Returned l' → carries_on l l'.
Proof.
  intros Hrun. at_run (tone_stage_spec p c l) Hrun.
  destruct H as (_ & _ & _ & H). unfold carries_on.
  destruct (unacceptable_found l') as [|first rest].
  - destruct H as (-> & -> & ->). apply carries_on_refl.
  - destruct H as (-> & -> & He).
    destruct (grown_explanations _ _ _ _ eq_refl He) as [Hk Hlen].
    split; [apply escalates_off|]. repeat split; auto. lia.
Qed.

Lemma example_stage_carries l l' : example_stage p c l = Returned l' → carries_on l l'.
Proof.
  intros Hrun. at_run (example_stage_spec p c l) Hrun.
  destruct H as (_ & _ & _ & H). unfold carries_on.
  destruct (Qltb (3 # 10) (bad_similarity l')).
  - destruct H as (Hs & -> & He).
    destruct (grown_explanations _ _ _ _ eq_refl He) as [Hk Hlen].
    rewrite Hs. destruct (decide (status l = OFF_BRAND)) as [Hoff|Hoff].
    + split; [apply escalates_off|]. repeat split; auto. lia.
    + split; [|repeat split; auto; done].
      unfold escalates.
      destruct (status l), (Qltb (1 # 2) (bad_similarity l')); simpl; try lia.
      done.
  - destruct H as (-> & -> & ->). apply carries_on_refl.
Qed.

Lemma alignment_stage_carries l l' :
  alignment_stage p c l = Returned l' → carries_on l l'.
Proof.
  intros Hrun. at_run (alignment_stage_spec p c l) Hrun.
  destruct H as (He & _ & _ & _ & _ & _ & _ & H). unfold carries_on. rewrite He.
  assert (∃ k, explanations l = explanations l ++ k)
    by (exists []; by rewrite app_nil_r).
  destruct (decide (status l = ON_BRAND)) as [Hon|Hon].
  - rewrite Hon. split; [unfold escalates; simpl; lia|].
    repeat split; auto; done.
  - destruct H as (-> & ->). split; [apply escalates_refl|]. auto.
Qed.
End Carrying.

(** ** Facts about a run *)

Section RunFacts.
Context {p : BrandProfile} {c : string} {l1 l2 l3 l4 l5 l6 l7 l8 : Locals}
        {v : Verdict.t}.
Hypothesis R : pipeline_run p c l1 l2 l3 l4 l5 l6 l7 l8 v.

Lemma run_explanation_stages :
  adds_info_only l4 l5 ∧ adds_info_only l5 l6
  ∧ adds_info_only l6 l7 ∧ adds_info_only l7 l8
  ∧ explanations l8 ≠ [].
Proof.
  at_run (positive_stage_spec l4) (run_positive _ _ _ _ _ _ _ _ _ _ _ R).
  at_run (voice_fill_stage_spec p c l5) (run_voice_fill _ _ _ _ _ _ _ _ _ _ _ R).
  at_run (tone_fill_stage_spec l6) (run_tone_fill _ _ _ _ _ _ _ _ _ _ _ R).
  at_run (final_guarantee_stage_spec l7) (run_final_guarantee _ _ _ _ _ _ _ _ _ _ _ R).
  intuition.
Qed.

Lemma run_decision_final : status l8 = status l4 ∧ confidence l8 = confidence l4.
Proof.
  destruct run_explanation_stages
    as ((? & ? & _) & (? & ? & _) & (? & ? & _) & (? & ? & _) & _).
  split; congruence.
Qed.

Lemma run_carries :
  carries_on l1 l2 ∧ carries_on l2 l3 ∧ carries_on l3 l4 ∧ carries_on l4 l8.
Proof.
  destruct run_explanation_stages as (H5 & H6 & H7 & H8 & _).
  split; [exact (tone_stage_carries _ _ _ _ (run_tone _ _ _ _ _ _ _ _ _ _ _ R))|].
  split; [exact (example_stage_carries _ _ _ _ (run_example _ _ _ _ _ _ _ _ _ _ _ R))|].
  split; [exact (alignment_stage_carries _ _ _ _ (run_alignment _ _ _ _ _ _ _ _ _ _ _ R))|].
  apply adds_info_only_carries in H5, H6, H7, H8.
  exact (carries_on_trans _ _ _ H5
           (carries_on_trans _ _ _ H6 (carries_on_trans _ _ _ H7 H8))).
Qed.

Lemma run_first_length : (length (explanations l1) ≤ 1)%nat.
Proof.
  at_run (never_rule_stage_spec p c initial_locals)
         (run_never_rule _ _ _ _ _ _ _ _ _ _ _ R).
  destruct H as (_ & H). destruct (never_violations l1).
  - destruct H as (_ & _ & ->). simpl. lia.
  - destruct H as (_ & _ & ->). simpl. lia.
Qed.

Lemma run_second_length : (length (explanations l2) ≤ 2)%nat.
Proof.
  pose proof run_first_length as H1.
  at_run (tone_stage_spec p c l1) (run_tone _ _ _ _ _ _ _ _ _ _ _ R).
  destruct H as (_ & _ & _ & H). destruct (unacceptable_found l2).
  - destruct H as (_ & _ & ->). lia.
  - destruct H as (_ & _ & ->).
    destruct (length (explanations l1) <? 3)%nat; [|lia].
    rewrite length_app. simpl. lia.
Qed.

Lemma run_lengths :
  ∀ l, l ∈ [l1; l2; l3; l4; l8] → (length (explanations l) ≤ 3)%nat.
Proof.
  destruct run_carries
    as ((_ & _ & H2 & _) & (_ & _ & H3 & _) & (_ & _ & H4 & _) & (_ & _ & H8 & _)).
  pose proof run_first_length. pose proof run_second_length.
  intros l Hl. repeat (apply elem_of_cons in Hl as [->|Hl]); auto with lia.
  by apply elem_of_nil in Hl.
Qed.

(** The truncation to three entries drops nothing. *)
Lemma run_verdict_explanations :
  Verdict.explanations v = sort_by_key severity_rank (explanations l8).
Proof.
  rewrite (run_explanations _ _ _ _ _ _ _ _ _ _ _ R).
  apply take_ge. rewrite sort_by_key_length.
  apply run_lengths. do 4 apply list_elem_of_further. constructor.
Qed.

Lemma run_verdict_elem e l :
  l ∈ [l1; l2; l3; l4; l8] → e ∈ explanations l → e ∈ Verdict.explanations v.
Proof.
  destruct run_carries as (C2 & C3 & C4 & C8).
  rewrite run_verdict_explanations, sort_by_key_perm.
  intros Hl He.
  repeat (apply elem_of_cons in Hl as [->|Hl]);
    eauto 6 using carries_on_elem.
  by apply elem_of_nil in Hl.
Qed.
End RunFacts.

(** ** The never-rule stage decides *)

Lemma never_violation_run p c l1 l2 l3 l4 l5 l6 l7 l8 v rule :
  pipeline_run p c l1 l2 l3 l4 l5 l6 l7 l8 v →
  rule ∈ never_rules p → contains_phrase c rule = true →
  status l8 = OFF_BRAND ∧ confidence l8 = 95%Z
  ∧ ∃ first rest k,
      List.filter (contains_phrase c) (never_rules p) = first :: rest
      ∧ explanations l8 = prohibited_content first :: k.
Proof.
  intros R Hin Hrule.
  pose proof (filter_nonempty _ _ _ Hin Hrule) as Hne.
  at_run (never_rule_stage_spec p c initial_locals)
         (run_never_rule _ _ _ _ _ _ _ _ _ _ _ R).
  destruct H as (Hnv & H). rewrite <- Hnv in Hne.
  destruct (never_violations l1) as [|first rest]; [done|].
  destruct H as (Hs & Hc & He). simpl in He.
  destruct (run_carries R) as (C2 & C3 & C4 & C8).
  pose proof (carries_on_trans _ _ _ C2
                (carries_on_trans _ _ _ C3 (carries_on_trans _ _ _ C4 C8)))
    as (_ & [k Hk] & _ & Hoff & Hconf).
  split; [auto|]. split; [auto|].
  exists first, rest, k. split; [done|]. by rewrite Hk, He.
Qed.

(** C1. If some never-rule phrase is contained in the content, the verdict
    is off-brand with confidence 95, and its first explanation has severity
    critical, the aspect never-rule, and as text the words
    [Contains prohibited content: ] followed, between two double quotes
    (code point 34), by the first violated rule, first in the order of the
    profile's own neverRules list. *)
Theorem never_rule_forces_off_brand (p : BrandProfile) (c : string) :
  (∃ rule, rule ∈ never_rules p ∧ contains_phrase c rule = true) →
  ∃ v i first e,
    evaluate p c = Returned v
    ∧ Verdict.status v = OFF_BRAND
    ∧ Verdict.confidence v = 95%Z
    ∧ never_rules p !! i = Some first
    ∧ contains_phrase c first = true
    ∧ (∀ j r, (j < i)%nat → never_rules p !! j = Some r →
              contains_phrase c r = false)
    ∧ head (Verdict.explanations v) = Some e
    ∧ severity e = CRITICAL
    ∧ aspect e = Some NEVER_RULE
    ∧ text e
      = ("Contains prohibited content: "
         +:+ String "034"%char (first +:+ String "034"%char ""))%string.
Proof.
  intros (rule & Hin & Hrule).
  destruct (pipeline_run_exists p c) as (l1 & l2 & l3 & l4 & l5 & l6 & l7 & l8 & v & R).
  destruct (never_violation_run _ _ _ _ _ _ _ _ _ _ _ _ R Hin Hrule)
    as (Hs & Hc & first & rest & k & Hf & He).
  destruct (filter_first _ _ _ _ Hf) as (i & Hi & Hfirst & Hbefore).
  exists v, i, first, (prohibited_content first).
  split; [apply (run_verdict _ _ _ _ _ _ _ _ _ _ _ R)|].
  split; [by rewrite (run_status _ _ _ _ _ _ _ _ _ _ _ R)|].
  split; [by rewrite (run_confidence _ _ _ _ _ _ _ _ _ _ _ R)|].
  do 3 (split; [done|]).
  split; [|by repeat split].
  rewrite (run_explanations _ _ _ _ _ _ _ _ _ _ _ R), He.
  by rewrite sort_by_key_least_first.
Qed.

Lemma never_rule_forces_off_brand_witness :
  (∃ rule, rule ∈ never_rules scenario1_profile
           ∧ contains_phrase scenario1_content rule = true)
  ∧ ∃ v e, evaluate scenario1_profile scenario1_content = Returned v
         ∧ Verdict.status v = OFF_BRAND ∧ Verdict.confidence v = 95%Z
         ∧ head (Verdict.explanations v) = Some e
         ∧ severity e = CRITICAL
         ∧ text e
           = ("Contains prohibited content: "
              +:+ String "034"%char ("guaranteed results"
                                     +:+ String "034"%char ""))%string.
Proof.
  assert (∃ rule, rule ∈ never_rules scenario1_profile
                  ∧ contains_phrase scenario1_content rule = true) as Hyp.
  { exists "guaranteed results"%string. split; [constructor | reflexivity]. }
  split; [exact Hyp|].
  destruct (never_rule_forces_off_brand scenario1_profile scenario1_content Hyp)
    as (v & i & first & e & Hv & Hs & Hc & Hi & _ & _ & He & Hsev & _ & Ht).
  exists v, e.
  assert (first = "guaranteed results"%string) as <-
    by (destruct i as [|i]; simpl in Hi; [by injection Hi|done]).
  repeat split; try done.
Defined.

(** ** Escalation *)

Lemma stage_escalates p c f l l' :
  f ∈ stages p c → f l = Returned l' → escalates (status l) (status l').
Proof.
  unfold stages, decision_stages, explanation_stages. simpl.
  intros Hf Hrun.
  repeat (apply elem_of_cons in Hf as [->|Hf]).
  - at_run (never_rule_stage_spec p c l) Hrun.
    destruct H as (_ & H). destruct (never_violations l').
    + destruct H as (-> & _). apply escalates_refl.
    + destruct H as (-> & _). apply escalates_off.
  - by apply (tone_stage_carries p c).
  - by apply (example_stage_carries p c).
  - by apply (alignment_stage_carries p c).
  - at_run (positive_stage_spec l) Hrun.
    destruct H as ((-> & _) & _). apply escalates_refl.
  - at_run (voice_fill_stage_spec p c l) Hrun.
    destruct H as (-> & _). apply escalates_refl.
  - at_run (tone_fill_stage_spec l) Hrun.
    destruct H as (-> & _). apply escalates_refl.
  - at_run (final_guarantee_stage_spec l) Hrun.
    destruct H as ((-> & _) & _). apply escalates_refl.
  - injection Hrun as <-. apply escalates_refl.
  - injection Hrun as <-. apply escalates_refl.
  - by apply elem_of_nil in Hf.
Qed.

Lemma trace_stages_escalates p c fs :
  (∀ f, f ∈ fs → f ∈ stages p c) →
  ∀ l tr, trace_stages fs l = Returned tr →
    length tr = S (length fs)
    ∧ head tr = Some l
    ∧ ∀ i a b, tr !! i = Some a → tr !! S i = Some b →
               escalates (status a) (status b).
Proof.
  induction fs as [|f fs IH]; intros Hfs l tr; simpl.
  - intros [= <-]. split; [done|]. split; [done|]. by intros [|i] a b.
  - destruct (f l) as [l'|] eqn:Ef; simpl; [|done].
    destruct (trace_stages fs l') as [t|] eqn:Et; simpl; [|done].
    intros [= <-].
    destruct (IH (λ g Hg, Hfs g (list_elem_of_further _ _ _ Hg)) l' t Et)
      as (Hlen & Hhd & Hstep).
    split; [simpl; by rewrite Hlen|]. split; [done|].
    intros [|i] a b; simpl.
    + intros [= <-] Hb. destruct t as [|x t]; [done|].
      simpl in Hhd, Hb. simplify_eq.
      eapply stage_escalates; [|exact Ef]. apply Hfs. constructor.
    + apply Hstep.
Qed.

(** C2. Within one evaluation the status only escalates: every stage, run
    on any local state, returns a status of the same or a higher rank
    (on-brand, borderline, off-brand); and the statuses recorded before the
    first stage and after each stage start at on-brand and never go down. *)
Theorem status_only_escalates (p : BrandProfile) (c : string) :
  (∀ f l l', f ∈ stages p c → f l = Returned l' →
             escalates (status l) (status l'))
  ∧ ∃ tr v,
      trace_stages (stages p c) initial_locals = Returned tr
      ∧ evaluate p c = Returned v
      ∧ length tr = S (length (stages p c))
      ∧ status <$> head tr = Some ON_BRAND
      ∧ status <$> last tr = Some (Verdict.status v)
      ∧ ∀ i a b, tr !! i = Some a → tr !! S i = Some b →
                 escalates (status a) (status b).
Proof.
  split; [intros f l l'; apply stage_escalates|].
  destruct (pipeline_run_exists p c) as (l1 & l2 & l3 & l4 & l5 & l6 & l7 & l8 & v & R).
  pose proof (run_trace _ _ _ _ _ _ _ _ _ _ _ R) as Ht.
  destruct (trace_stages_escalates p c (stages p c) (λ f Hf, Hf) _ _ Ht)
    as (Hlen & Hhd & Hstep).
  eexists; exists v. split; [exact Ht|].
  split; [apply (run_verdict _ _ _ _ _ _ _ _ _ _ _ R)|].
  split; [done|]. split; [done|]. split; [|done].
  simpl. by rewrite (run_status _ _ _ _ _ _ _ _ _ _ _ R).
Qed.

Lemma status_only_escalates_witness :
  never_rule_stage scenario1_profile scenario1_content initial_locals
  = Returned scenario1_after_never_rule
  ∧ escalates (status initial_locals) (status scenario1_after_never_rule).
Proof.
  assert (never_rule_stage scenario1_profile scenario1_content initial_locals
          = Returned scenario1_after_never_rule) as Hrun by reflexivity.
  split; [exact Hrun|].
  apply (proj1 (status_only_escalates scenario1_profile scenario1_content)
               (never_rule_stage scenario1_profile scenario1_content)
               initial_locals scenario1_after_never_rule);
    [constructor | exact Hrun].
Defined.

(** ** The example-similarity stage *)

(** C3. Let [b] be the largest overlap of the content with a bad example
    (0 without one), the value the stage leaves in [bad_similarity]. If
    [b > 0.5] the status is off-brand, after the stage and in the verdict,
    and one explanation is appended, of severity critical; if
    [0.3 < b <= 0.5] the status is borderline unless it was off-brand
    already, and the explanation appended has severity warning. Either way
    the explanation has the aspect example-match and the text
    [Content resembles known off-brand examples], it is within the three
    kept, confidence is [max(confidence, 80)], and the verdict carries the
    status and confidence of the stage. *)
Theorem example_similarity_stage (p : BrandProfile) (c : string) :
  ∃ l2 l3 v,
    run_stages [never_rule_stage p c; tone_stage p c] initial_locals = Returned l2
    ∧ example_stage p c l2 = Returned l3
    ∧ evaluate p c = Returned v
    ∧ is_max_similarity bad c (examples p) (bad_similarity l3)
    ∧ ((1 # 2 < bad_similarity l3)%Q →
       status l3 = OFF_BRAND
       ∧ Verdict.status v = OFF_BRAND
       ∧ confidence l3 = Z.max (confidence l2) 80
       ∧ Verdict.confidence v = confidence l3
       ∧ ∃ e, explanations l3 = explanations l2 ++ [e]
            ∧ e ∈ Verdict.explanations v
            ∧ severity e = CRITICAL
            ∧ aspect e = Some EXAMPLE_MATCH
            ∧ text e = "Content resembles known off-brand examples"%string)
    ∧ ((3 # 10 < bad_similarity l3)%Q → (bad_similarity l3 <= 1 # 2)%Q →
       status l3 = (if decide (status l2 = OFF_BRAND) then OFF_BRAND else BORDERLINE)
       ∧ Verdict.status v = status l3
       ∧ confidence l3 = Z.max (confidence l2) 80
       ∧ Verdict.confidence v = confidence l3
       ∧ ∃ e, explanations l3 = explanations l2 ++ [e]
            ∧ e ∈ Verdict.explanations v
            ∧ severity e = WARNING
            ∧ aspect e = Some EXAMPLE_MATCH
            ∧ text e = "Content resembles known off-brand examples"%string)
    ∧ ((bad_similarity l3 <= 3 # 10)%Q →
       status l3 = status l2 ∧ confidence l3 = confidence l2
       ∧ explanations l3 = explanations l2).
Proof.
  destruct (pipeline_run_exists p c) as (l1 & l2 & l3 & l4 & l5 & l6 & l7 & l8 & v & R).
  exists l2, l3, v.
  split.
  { simpl. rewrite (run_never_rule _ _ _ _ _ _ _ _ _ _ _ R). simpl.
    by rewrite (run_tone _ _ _ _ _ _ _ _ _ _ _ R). }
  split; [apply (run_example _ _ _ _ _ _ _ _ _ _ _ R)|].
  split; [apply (run_verdict _ _ _ _ _ _ _ _ _ _ _ R)|].
  at_run (example_stage_spec p c l2) (run_example _ _ _ _ _ _ _ _ _ _ _ R).
  destruct H as (Hmax & _ & _ & H). split; [done|].
  pose proof (run_second_length R) as Hlen2.
  assert ((length (explanations l2) <? 3)%nat = true) as Hcap
    by (apply Nat.ltb_lt; lia).
  rewrite Hcap in H.
  (* once the status is not on-brand, the verdict carries it *)
  assert (status l3 ≠ ON_BRAND →
          Verdict.status v = status l3 ∧ Verdict.confidence v = confidence l3)
    as Hkept.
  { intros Hne.
    rewrite (run_status _ _ _ _ _ _ _ _ _ _ _ R),
            (run_confidence _ _ _ _ _ _ _ _ _ _ _ R).
    destruct (run_decision_final R) as [-> ->].
    at_run (alignment_stage_spec p c l3) (run_alignment _ _ _ _ _ _ _ _ _ _ _ R).
    destruct H0 as (_ & _ & _ & _ & _ & _ & _ & H0).
    by destruct (decide (status l3 = ON_BRAND)). }
  assert (∀ e, e ∈ explanations l3 → e ∈ Verdict.explanations v) as Hin.
  { intros e. apply (run_verdict_elem R).
    do 2 apply list_elem_of_further. constructor. }
  split; [|split].
  - intros Hb. assert (Qltb (1 # 2) (bad_similarity l3) = true) as E5
      by by apply Qltb_lt.
    assert (Qltb (3 # 10) (bad_similarity l3) = true) as E3.
    { apply Qltb_lt. eapply Qlt_trans; [|exact Hb]. done. }
    rewrite E3, E5 in H. destruct H as (Hs & Hc & He).
    assert (status l3 = OFF_BRAND) as Hoff
      by (rewrite Hs; by destruct (decide (status l2 = OFF_BRAND))).
    destruct Hkept as [Hvs Hvc]; [by rewrite Hoff|].
    split; [done|]. split; [by rewrite Hvs|]. split; [done|]. split; [done|].
    exists (resembles_off_brand CRITICAL). split; [done|].
    split; [|by repeat split].
    apply Hin. rewrite He. apply elem_of_app. right. constructor.
  - intros Hlo Hhi. assert (Qltb (1 # 2) (bad_similarity l3) = false) as E5
      by by apply Qltb_ge.
    assert (Qltb (3 # 10) (bad_similarity l3) = true) as E3 by by apply Qltb_lt.
    rewrite E3, E5 in H. destruct H as (Hs & Hc & He).
    destruct Hkept as [Hvs Hvc].
    { rewrite Hs. by destruct (decide (status l2 = OFF_BRAND)). }
    split; [done|]. split; [done|]. split; [done|]. split; [done|].
    exists (resembles_off_brand WARNING). split; [done|].
    split; [|by repeat split].
    apply Hin. rewrite He. apply elem_of_app. right. constructor.
  - intros Hle. assert (Qltb (3 # 10) (bad_similarity l3) = false) as E3
      by by apply Qltb_ge.
    by rewrite E3 in H.
Qed.

Lemma example_similarity_stage_witness :
  ∃ v e, evaluate scenario3_profile scenario3_content = Returned v
       ∧ Verdict.status v = OFF_BRAND
       ∧ e ∈ Verdict.explanations v
       ∧ severity e = CRITICAL
       ∧ text e = "Content resembles known off-brand examples"%string.
Proof.
  destruct (example_similarity_stage scenario3_profile scenario3_content)
    as (l2 & l3 & v & H2 & H3 & Hv & _ & Hhigh & _).
  assert (l2 = scenario3_after_tone) as -> by (by injection H2).
  assert (l3 = scenario3_after_example) as ->.
  { assert (example_stage scenario3_profile scenario3_content scenario3_after_tone
            = Returned scenario3_after_example) as E by (vm_compute; reflexivity).
    rewrite E in H3. by injection H3. }
  destruct Hhigh as (_ & Hs & _ & _ & e & _ & He & Hsev & _ & Ht); [reflexivity|].
  exists v, e. repeat split; done.
Defined.

(** ** The value/voice alignment stage *)

(** C4. With the status still on-brand when the stage starts, a combined
    score below 0.3 gives borderline at confidence 70, one in [0.3, 0.5)
    gives borderline at 75, and one of at least 0.5 leaves on-brand with
    confidence [80 + floor(15 * combinedScore)], at most 95. With any other
    status the stage changes neither status nor confidence. The verdict
    returns the status and confidence this stage leaves. *)
Theorem alignment_stage_decision (p : BrandProfile) (c : string) :
  ∃ l3 l4 v,
    run_stages [never_rule_stage p c; tone_stage p c; example_stage p c]
               initial_locals = Returned l3
    ∧ alignment_stage p c l3 = Returned l4
    ∧ evaluate p c = Returned v
    ∧ Verdict.status v = status l4
    ∧ Verdict.confidence v = confidence l4
    ∧ value_score l4 = phrase_score c (values p)
    ∧ voice_score l4 = phrase_score c (voice_descriptors p)
    ∧ combined_score l4 = ((value_score l4 + voice_score l4) / 2)%Q
    ∧ (status l3 = ON_BRAND →
       ((combined_score l4 < 3 # 10)%Q →
        status l4 = BORDERLINE ∧ confidence l4 = 70%Z)
       ∧ ((3 # 10 <= combined_score l4)%Q → (combined_score l4 < 1 # 2)%Q →
          status l4 = BORDERLINE ∧ confidence l4 = 75%Z)
       ∧ ((1 # 2 <= combined_score l4)%Q →
          status l4 = ON_BRAND
          ∧ confidence l4 = (80 + Qfloor (combined_score l4 * 15))%Z
          ∧ (confidence l4 ≤ 95)%Z))
    ∧ (status l3 ≠ ON_BRAND →
       status l4 = status l3 ∧ confidence l4 = confidence l3).
Proof.
  destruct (pipeline_run_exists p c) as (l1 & l2 & l3 & l4 & l5 & l6 & l7 & l8 & v & R).
  exists l3, l4, v.
  split.
  { simpl. rewrite (run_never_rule _ _ _ _ _ _ _ _ _ _ _ R). simpl.
    rewrite (run_tone _ _ _ _ _ _ _ _ _ _ _ R). simpl.
    by rewrite (run_example _ _ _ _ _ _ _ _ _ _ _ R). }
  split; [apply (run_alignment _ _ _ _ _ _ _ _ _ _ _ R)|].
  split; [apply (run_verdict _ _ _ _ _ _ _ _ _ _ _ R)|].
  destruct (run_decision_final R) as [Hs8 Hc8].
  split; [by rewrite (run_status _ _ _ _ _ _ _ _ _ _ _ R)|].
  split; [by rewrite (run_confidence _ _ _ _ _ _ _ _ _ _ _ R)|].
  at_run (alignment_stage_spec p c l3) (run_alignment _ _ _ _ _ _ _ _ _ _ _ R).
  destruct H as (_ & _ & _ & _ & Hvs & Hvo & Hcs & H).
  do 3 (split; [done|]).
  assert ((0 <= combined_score l4)%Q ∧ (combined_score l4 <= 1)%Q) as [Hc0 Hc1].
  { rewrite Hcs, Hvs, Hvo. apply mean_range; apply phrase_score_range. }
  split.
  - intros Hon. destruct (decide (status l3 = ON_BRAND)); [|done].
    split; [|split].
    + intros Hlt%Qltb_lt. by rewrite Hlt in H.
    + intros Hge%Qltb_ge Hlt%Qltb_lt. by rewrite Hge, Hlt in H.
    + intros Hge. assert (Qltb (combined_score l4) (1 # 2) = false) as E5
        by by apply Qltb_ge.
      assert (Qltb (combined_score l4) (3 # 10) = false) as E3.
      { apply Qltb_ge. eapply Qle_trans; [|exact Hge]. done. }
      rewrite E3, E5 in H. destruct H as [Hst Hconf].
      assert (0 <= combined_score l4 * 15)%Q as Hnn.
      { apply Qmult_le_0_compat; [done|]. done. }
      rewrite (py_int_floor _ Hnn) in Hconf.
      split; [done|]. split; [done|]. rewrite Hconf.
      assert (Qfloor (combined_score l4 * 15) ≤ Qfloor 15)%Z as Hfl.
      { apply Qfloor_resp_le.
        apply (Qle_trans _ (1 * 15)); [|done].
        apply Qmult_le_compat_r; [done|]. done. }
      change (Qfloor 15) with 15%Z in Hfl. lia.
  - intros Hne. by destruct (decide (status l3 = ON_BRAND)).
Qed.

Lemma alignment_stage_decision_witness :
  ∃ v, evaluate scenario2_profile scenario2_content = Returned v
       ∧ Verdict.status v = BORDERLINE ∧ Verdict.confidence v = 70%Z.
Proof.
  destruct (alignment_stage_decision scenario2_profile scenario2_content)
    as (l3 & l4 & v & H3 & H4 & Hv & Hs & Hc & _ & _ & _ & Hon & _).
  exists v. split; [exact Hv|]. rewrite Hs, Hc.
  assert (l3 = scenario2_after_example) as -> by (by injection H3).
  assert (l4 = scenario2_after_alignment) as -> by (by injection H4).
  destruct Hon as (Hlow & _); [reflexivity|].
  apply Hlow. reflexivity.
Defined.

(** ** Agreement of the exact scores with double precision *)

Lemma alignment_stage_outcome p c l l' :
  alignment_stage p c l = Returned l' → status l = ON_BRAND →
  (status l', confidence l')
  = alignment_outcome
      (length (List.filter (contains_phrase c) (values p)))
      (length (values p))
      (length (List.filter (contains_phrase c) (voice_descriptors p)))
      (length (voice_descriptors p)).
Proof.
  intros Hrun Hon. at_run (alignment_stage_spec p c l) Hrun.
  destruct H as (_ & _ & _ & _ & Hvs & Hvo & Hcs & H).
  destruct (decide (status l = ON_BRAND)); [|done].
  unfold alignment_outcome. rewrite Hvs, Hvo in Hcs. unfold phrase_score in Hcs.
  rewrite <- Hcs.
  destruct (Qltb (combined_score l') (3 # 10)); [by destruct H as [-> ->]|].
  destruct (Qltb (combined_score l') (1 # 2)); by destruct H as [-> ->].
Qed.

Lemma forallb_seq (f : nat → bool) start len k :
  forallb f (seq start len) = true → (start ≤ k < start + len)%nat → f k = true.
Proof. rewrite forallb_forall. intros H Hk. apply H, in_seq. lia. Qed.

Lemma alignment_agrees_upto_spec nmax mmax :
  alignment_agrees_upto nmax mmax = true →
  ∀ a n b m, (1 ≤ n ≤ nmax)%nat → (a ≤ n)%nat → (1 ≤ m ≤ mmax)%nat → (b ≤ m)%nat →
    Binary64.alignment_outcome a n b m = alignment_outcome a n b m.
Proof.
  unfold alignment_agrees_upto. intros H a n b m Hn Ha Hm Hb.
  apply (forallb_seq _ _ _ n) in H; [|lia].
  apply (forallb_seq _ _ _ a) in H; [|lia].
  apply (forallb_seq _ _ _ m) in H; [|lia].
  apply (forallb_seq _ _ _ b) in H; [|lia].
  by apply bool_decide_eq_true in H.
Qed.

Lemma quotients_agree_upto_spec umax :
  quotients_agree_upto umax = true →
  ∀ i u, (1 ≤ u ≤ umax)%nat → (i ≤ u)%nat →
    Binary64.quotient_tests i u = quotient_tests i u.
Proof.
  unfold quotients_agree_upto. intros H i u Hu Hi.
  apply (forallb_seq _ _ _ u) in H; [|lia].
  apply (forallb_seq _ _ _ i) in H; [|lia].
  by apply bool_decide_eq_true in H.
Qed.

(** On every validated profile (1 to 20 values, 1 to 10 voice descriptors)
    the branch taken and the confidence computed in double precision are
    those of the exact scores. *)
Lemma binary64_alignment_agrees a n b m :
  (1 ≤ n ≤ 20)%nat → (a ≤ n)%nat → (1 ≤ m ≤ 10)%nat → (b ≤ m)%nat →
  Binary64.alignment_outcome a n b m = alignment_outcome a n b m.
Proof. apply (alignment_agrees_upto_spec 20 10). vm_compute. reflexivity. Qed.

(** For a quotient of lengths with denominator up to 256, the comparisons
    with 0.3 and 0.5 in double precision are those of the exact quotient. *)
Lemma binary64_quotient_tests_agree i u :
  (1 ≤ u ≤ 256)%nat → (i ≤ u)%nat →
  Binary64.quotient_tests i u = quotient_tests i u.
Proof. apply (quotients_agree_upto_spec 256). vm_compute. reflexivity. Qed.

(** On a validated profile, what stage 4 leaves from an on-brand status is
    what the method body computes in double precision. *)
Corollary alignment_stage_binary64 p c l l' :
  BrandProfile_valid p = true →
  alignment_stage p c l = Returned l' → status l = ON_BRAND →
  (status l', confidence l')
  = Binary64.alignment_outcome
      (length (List.filter (contains_phrase c) (values p)))
      (length (values p))
      (length (List.filter (contains_phrase c) (voice_descriptors p)))
      (length (voice_descriptors p)).
Proof.
  intros Hvalid Hrun Hon. unfold BrandProfile_valid in Hvalid.
  apply andb_true_iff in Hvalid as [Hvalid _].
  apply andb_true_iff in Hvalid as [Hvalid Hvoice%bool_decide_eq_true].
  apply andb_true_iff in Hvalid as [_ Hvalues%bool_decide_eq_true].
  rewrite binary64_alignment_agrees.
  - exact (alignment_stage_outcome p c l l' Hrun Hon).
  - done.
  - apply length_filter_le.
  - done.
  - apply length_filter_le.
Qed.

(** ** The explanation list *)

(** C5. The verdict has at least one explanation and at most three. *)
Theorem explanation_bounds (p : BrandProfile) (c : string) :
  ∃ v, evaluate p c = Returned v
       ∧ (1 ≤ length (Verdict.explanations v) ≤ 3)%nat.
Proof.
  destruct (pipeline_run_exists p c) as (l1 & l2 & l3 & l4 & l5 & l6 & l7 & l8 & v & R).
  exists v. split; [apply (run_verdict _ _ _ _ _ _ _ _ _ _ _ R)|].
  destruct (run_explanation_stages R) as (_ & _ & _ & _ & Hne).
  rewrite (run_explanations _ _ _ _ _ _ _ _ _ _ _ R), length_take, sort_by_key_length.
  destruct (explanations l8) as [|e es]; [done|].
  change (length (e :: es)) with (S (length es))%nat. lia.
Qed.

Lemma StronglySorted_take {A} (R : A → A → Prop) n (l : list A) :
  StronglySorted R l → StronglySorted R (take n l).
Proof.
  intros H. revert n. induction H as [|x l Hl IH Hx]; intros [|n]; simpl;
    try constructor; [apply IH|].
  apply Forall_take, Hx.
Qed.

(** C6. The returned explanations are the first three of the accumulated
    list sorted by severity rank (critical 0, warning 1, info 2): the
    sorted list is a rearrangement of the accumulated one, non-decreasing
    in rank, with the explanations of each rank in their insertion order;
    the cut to three comes after the sort. *)
Theorem explanations_sorted_then_cut (p : BrandProfile) (c : string) :
  ∃ l8 v,
    run_stages (decision_stages p c ++ explanation_stages p c) initial_locals
    = Returned l8
    ∧ evaluate p c = Returned v
    ∧ severity_order CRITICAL = 0%nat ∧ severity_order WARNING = 1%nat
    ∧ severity_order INFO = 2%nat
    ∧ Verdict.explanations v
      = take 3 (sort_by_key severity_rank (explanations l8))
    ∧ sort_by_key severity_rank (explanations l8) ≡ₚ explanations l8
    ∧ StronglySorted (key_le severity_rank)
                     (sort_by_key severity_rank (explanations l8))
    ∧ (∀ k, with_key severity_rank k (sort_by_key severity_rank (explanations l8))
            = with_key severity_rank k (explanations l8))
    ∧ StronglySorted (key_le severity_rank) (Verdict.explanations v)
    ∧ (∀ k, with_key severity_rank k (Verdict.explanations v)
            = with_key severity_rank k (explanations l8)).
Proof.
  destruct (pipeline_run_exists p c) as (l1 & l2 & l3 & l4 & l5 & l6 & l7 & l8 & v & R).
  exists l8, v.
  split; [apply (run_accumulated _ _ _ _ _ _ _ _ _ _ _ R)|].
  split; [apply (run_verdict _ _ _ _ _ _ _ _ _ _ _ R)|].
  do 3 (split; [reflexivity|]).
  split; [apply (run_explanations _ _ _ _ _ _ _ _ _ _ _ R)|].
  split; [apply sort_by_key_perm|].
  split; [apply sort_by_key_sorted|].
  split; [intros k; apply sort_by_key_stable|].
  split.
  - rewrite (run_explanations _ _ _ _ _ _ _ _ _ _ _ R).
    apply StronglySorted_take, sort_by_key_sorted.
  - intros k. rewrite (run_verdict_explanations R). apply sort_by_key_stable.
Qed.

(** ** Word overlap *)

(** C7, as the code has it. The overlap is symmetric; it is 1 for a text
    compared with itself when the text has a token; it is 0 against the
    empty text; it lies in [0, 1]; and it is 0 whenever either text has no
    token. *)
Theorem word_overlap_properties :
  (∀ a b, calculate_word_overlap a b = calculate_word_overlap b a)
  ∧ (∀ a, tokenize a ≠ ∅ →
          ∃ q, calculate_word_overlap a a = Returned q ∧ (q == 1)%Q)
  ∧ (∀ x, calculate_word_overlap "" x = Returned 0%Q)
  ∧ (∀ a b, ∃ q, calculate_word_overlap a b = Returned q
                 ∧ (0 <= q)%Q ∧ (q <= 1)%Q)
  ∧ (∀ a b, tokenize a = ∅ ∨ tokenize b = ∅ →
            calculate_word_overlap a b = Returned 0%Q).
Proof.
  split; [|split; [|split; [|split]]].
  - intros a b. by rewrite !calculate_word_overlap_value, overlap_value_comm.
  - intros a Ha. exists (overlap_value a a).
    split; [apply calculate_word_overlap_value | by apply overlap_value_self].
  - intros x. rewrite calculate_word_overlap_value.
    by rewrite overlap_value_no_tokens by (left; apply tokenize_empty).
  - intros a b. exists (overlap_value a b).
    split; [apply calculate_word_overlap_value | apply overlap_value_range].
  - intros a b H. by rewrite calculate_word_overlap_value, overlap_value_no_tokens.
Qed.

Lemma word_overlap_properties_witness :
  tokenize "on brand" ≠ ∅
  ∧ ∃ q, calculate_word_overlap "on brand" "on brand" = Returned q ∧ (q == 1)%Q.
Proof.
  assert (tokenize "on brand" ≠ ∅) as Hne.
  { apply (bool_decide_eq_false_1 (tokenize "on brand" = ∅)). reflexivity. }
  split; [exact Hne|].
  exact (proj1 (proj2 word_overlap_properties) "on brand"%string Hne).
Defined.

(** C7, as stated, fails: a non-empty text without a token, such as a lone
    exclamation mark, has overlap 0 with itself. *)
Lemma word_overlap_self_not_one :
  ¬ (∀ a : string, a ≠ ""%string →
       ∃ q, calculate_word_overlap a a = Returned q ∧ (q == 1)%Q).
Proof.
  intros H. destruct (H "!"%string) as (q & Hq & H1); [done|].
  assert (calculate_word_overlap "!" "!" = Returned 0%Q) as E by reflexivity.
  rewrite E in Hq. injection Hq as <-. discriminate H1.
Qed.

(** ** Totality *)


Lemma utf8_char_returns cp :
  is_surrogate cp = false → ∃ bytes, utf8_char cp = Returned bytes.
Proof.
  unfold utf8_char. intros ->.
  destruct (cp <? 128)%N; [by eexists|]. destruct (cp <? 2048)%N; [by eexists|].
  destruct (cp <? 65536)%N; by eexists.
Qed.


Lemma encode_returns content :
  existsb is_surrogate content = false → ∃ bytes, encode content = Returned bytes.
Proof.
  induction content as [|cp r IH]; [by eexists|]. simpl.
  intros [E H]%orb_false_iff.
  destruct (utf8_char_returns cp E) as [bytes ->]. destruct (IH H) as [bs ->].
  by eexists.
Qed.



(** A text of this development holds no surrogate. *)
Lemma code_points_no_surrogate s : existsb is_surrogate (code_points s) = false.
Proof.
  induction s as [|ch r IH]; [done|]. simpl. rewrite IH, orb_false_r.
  unfold is_surrogate, PyStr.ord. pose proof (N_ascii_bounded ch).
  apply andb_false_iff. left. apply N.leb_gt. lia.
Qed.





(** ** Scores over an empty list *)

(** C9. No score formula raises on an empty list, and each returns 0 there:
    every score is the number of phrases found over [max(len(list), 1)].
    This holds for the tone score of [CheckToneTool], for the value and
    voice scores of [CheckValueAlignmentTool], and for the value and voice
    scores of the alignment stage of [BrandCheckerTool]. *)
Theorem scores_zero_on_empty_list :
  (∀ content unacceptable,
     ∃ r, CheckToneTool_run content [] unacceptable = Returned r
          ∧ CheckTone.tone_score r = 0%Q)
  ∧ (∀ content voice_descriptors,
       ∃ r, CheckValueAlignmentTool_run content [] voice_descriptors = Returned r
            ∧ CheckValueAlignment.value_score r = 0%Q)
  ∧ (∀ content values,
       ∃ r, CheckValueAlignmentTool_run content values [] = Returned r
            ∧ CheckValueAlignment.voice_score r = 0%Q)
  ∧ (∀ p content l,
       ∃ l', alignment_stage p content l = Returned l'
             ∧ (values p = [] → value_score l' = 0%Q)
             ∧ (voice_descriptors p = [] → voice_score l' = 0%Q))
  ∧ (∀ content acceptable unacceptable,
       ∃ r, CheckToneTool_run content acceptable unacceptable = Returned r
            ∧ CheckTone.tone_score r = phrase_score content acceptable)
  ∧ (∀ content values voice_descriptors,
       ∃ r, CheckValueAlignmentTool_run content values voice_descriptors = Returned r
            ∧ CheckValueAlignment.value_score r = phrase_score content values
            ∧ CheckValueAlignment.voice_score r
              = phrase_score content voice_descriptors)
  ∧ (∀ p content l,
       ∃ l', alignment_stage p content l = Returned l'
             ∧ value_score l' = phrase_score content (values p)
             ∧ voice_score l' = phrase_score content (voice_descriptors p)).
Proof.
  assert (∀ content acceptable unacceptable,
            ∃ r, CheckToneTool_run content acceptable unacceptable = Returned r
                 ∧ CheckTone.tone_score r = phrase_score content acceptable)
    as Htone.
  { intros content acceptable unacceptable.
    unfold CheckToneTool_run. rewrite truediv_max_returns. simpl.
    eexists. split; reflexivity. }
  assert (∀ content values voice_descriptors,
            ∃ r, CheckValueAlignmentTool_run content values voice_descriptors
                 = Returned r
                 ∧ CheckValueAlignment.value_score r = phrase_score content values
                 ∧ CheckValueAlignment.voice_score r
                   = phrase_score content voice_descriptors)
    as Halign.
  { intros content values voice.
    unfold CheckValueAlignmentTool_run. rewrite !truediv_max_returns. simpl.
    eexists. split; [reflexivity|]. split; reflexivity. }
  assert (∀ p content l,
            ∃ l', alignment_stage p content l = Returned l'
                  ∧ value_score l' = phrase_score content (values p)
                  ∧ voice_score l' = phrase_score content (voice_descriptors p))
    as Hstage.
  { intros p content l.
    destruct (alignment_stage_spec p content l)
      as (l' & E & _ & _ & _ & _ & Hvs & Hvo & _).
    by exists l'. }
  split; [|split; [|split; [|split; [|split; [|split]]]]];
    [| | | |exact Htone|exact Halign|exact Hstage].
  - intros content unacceptable.
    destruct (Htone content [] unacceptable) as (r & Hr & Hs). by exists r.
  - intros content voice.
    destruct (Halign content [] voice) as (r & Hr & Hs & _). by exists r.
  - intros content values.
    destruct (Halign content values []) as (r & Hr & _ & Hs). by exists r.
  - intros p content l.
    destruct (Hstage p content l) as (l' & Hl & Hvs & Hvo).
    exists l'. split; [done|].
    split; intros Hnil; [rewrite Hvs | rewrite Hvo]; by rewrite Hnil.
Qed.

Lemma scores_zero_on_empty_list_witness :
  values no_values_profile = []
  ∧ ∃ l', alignment_stage no_values_profile "anything" initial_locals = Returned l'
          ∧ value_score l' = 0%Q.
Proof.
  split; [reflexivity|].
  destruct (proj1 (proj2 (proj2 (proj2 scores_zero_on_empty_list)))
                  no_values_profile "anything"%string initial_locals)
    as (l' & Hl & Hvs & _).
  exists l'. split; [exact Hl | exact (Hvs eq_refl)].
Defined.

(** ** The empty phrase *)

(** C10. The empty phrase is contained in every content, and so is every
    phrase made of whitespace only; a profile with such a phrase among its
    never-rules gives off-brand at confidence 95 on every content. *)
Theorem empty_never_rule_always_fires :
  (∀ content, contains_phrase content "" = true)
  ∧ (∀ content phrase, whitespace_only phrase = true →
                       contains_phrase content phrase = true)
  ∧ (∀ p content rule,
       rule ∈ never_rules p → whitespace_only rule = true →
       ∃ v, evaluate p content = Returned v
            ∧ Verdict.status v = OFF_BRAND ∧ Verdict.confidence v = 95%Z).
Proof.
  split; [|split].
  - intros content. by apply contains_phrase_whitespace.
  - apply contains_phrase_whitespace.
  - intros p content rule Hin Hws.
    destruct (pipeline_run_exists p content)
      as (l1 & l2 & l3 & l4 & l5 & l6 & l7 & l8 & v & R).
    destruct (never_violation_run _ _ _ _ _ _ _ _ _ _ _ _ R Hin
                (contains_phrase_whitespace content rule Hws)) as (Hs & Hc & _).
    exists v. split; [apply (run_verdict _ _ _ _ _ _ _ _ _ _ _ R)|].
    by rewrite (run_status _ _ _ _ _ _ _ _ _ _ _ R),
               (run_confidence _ _ _ _ _ _ _ _ _ _ _ R).
Qed.

Lemma empty_never_rule_always_fires_witness :
  (""%string ∈ never_rules empty_rule_profile ∧ whitespace_only "" = true)
  ∧ ∃ v, evaluate empty_rule_profile "innovative, bold and confident" = Returned v
         ∧ Verdict.status v = OFF_BRAND ∧ Verdict.confidence v = 95%Z.
Proof.
  assert (""%string ∈ never_rules empty_rule_profile) as Hin by constructor.
  split; [split; [exact Hin | reflexivity]|].
  exact (proj2 (proj2 empty_never_rule_always_fires)
               empty_rule_profile "innovative, bold and confident"%string
               ""%string Hin eq_refl).
Defined.

(** * Further properties *)

(** ** Sorted outputs and partitions *)

Lemma insert_sorted_permutation {A} (le : A → A → bool) x (l : list A) :
  insert_sorted le x l ≡ₚ x :: l.
Proof.
  induction l as [|y l IH]; simpl; [done|].
  destruct (le x y); [done|]. rewrite IH. apply Permutation_swap.
Qed.

Lemma py_sorted_permutation {A} (le : A → A → bool) (l : list A) :
  py_sorted le l ≡ₚ l.
Proof.
  unfold py_sorted. induction l as [|x l IH]; simpl; [done|].
  by rewrite insert_sorted_permutation, IH.
Qed.

Lemma py_sorted_elem {A} (le : A → A → bool) (l : list A) x :
  x ∈ py_sorted le l ↔ x ∈ l.
Proof. by rewrite py_sorted_permutation. Qed.

Lemma py_sorted_nonempty {A} (le : A → A → bool) (l : list A) :
  is_nonempty (py_sorted le l) = is_nonempty l.
Proof.
  pose proof (Permutation_length (py_sorted_permutation le l)) as H.
  destruct l, (py_sorted le _); simpl in *; done.
Qed.

Lemma insert_sorted_Sorted {A} (le : A → A → bool) x (l : list A) :
  (∀ a b, le a b = true ∨ le b a = true) →
  Sorted (λ a b, le a b = true) l →
  Sorted (λ a b, le a b = true) (insert_sorted le x l).
Proof.
  intros Htotal. induction 1 as [|y l Hl IH Hy]; simpl.
  - repeat constructor.
  - destruct (le x y) eqn:E.
    + constructor; [by constructor|]. by constructor.
    + constructor; [done|].
      assert (le y x = true) as Hyx by (destruct (Htotal x y); congruence).
      destruct l as [|z l]; simpl; [by constructor|].
      destruct (le x z); constructor; [done|]. by inversion Hy.
Qed.

Lemma py_sorted_strings_Sorted (l : list string) :
  Sorted string_le (py_sorted String.leb l).
Proof.
  unfold py_sorted. induction l as [|x l IH]; simpl; [constructor|].
  apply (insert_sorted_Sorted String.leb); [apply String.leb_total | done].
Qed.

Lemma filter_complement_permutation {A} (f : A → bool) (l : list A) :
  List.filter f l ++ List.filter (λ x, negb (f x)) l ≡ₚ l.
Proof.
  induction l as [|x l IH]; simpl; [done|].
  destruct (f x); simpl; [by rewrite IH|].
  by rewrite <- Permutation_middle, IH.
Qed.

Lemma elem_of_filter_bool {A} (f : A → bool) (l : list A) x :
  x ∈ List.filter f l ↔ x ∈ l ∧ f x = true.
Proof. by rewrite !list_elem_of_In, filter_In. Qed.

Lemma filter_nonempty_iff {A} (f : A → bool) (l : list A) :
  is_nonempty (List.filter f l) = true ↔ ∃ x, x ∈ l ∧ f x = true.
Proof.
  split.
  - destruct (List.filter f l) as [|x r] eqn:E; [done|]. intros _.
    exists x. apply elem_of_filter_bool. rewrite E. constructor.
  - intros (x & Hx & Hf). by eapply filter_nonempty.
Qed.

Lemma is_nonempty_length {A} (l : list A) :
  is_nonempty l = bool_decide (0 < length l)%nat.
Proof.
  destruct l as [|x l]; [done|].
  symmetry. apply (bool_decide_eq_true_2 (0 < length (x :: l))%nat). simpl. lia.
Qed.

(** ** The stand-alone tools *)

(** X1. [CheckNeverRulesTool] splits the rules into those found in the
    content and the others, loses and invents none, returns both lists in
    lexicographic order, and reports a violation exactly when some rule is
    found, with the number of rules found as the count. *)
Theorem check_never_rules_partition (content : string) (never_rules : list string) :
  let r := CheckNeverRulesTool_run content never_rules in
  CheckNeverRules.violated r ++ CheckNeverRules.passed r ≡ₚ never_rules
  ∧ (∀ rule, rule ∈ CheckNeverRules.violated r
             ↔ rule ∈ never_rules ∧ contains_phrase content rule = true)
  ∧ (∀ rule, rule ∈ CheckNeverRules.passed r
             ↔ rule ∈ never_rules ∧ contains_phrase content rule = false)
  ∧ Sorted string_le (CheckNeverRules.violated r)
  ∧ Sorted string_le (CheckNeverRules.passed r)
  ∧ CheckNeverRules.violation_count r = length (CheckNeverRules.violated r)
  ∧ (CheckNeverRules.has_violations r = true
     ↔ ∃ rule, rule ∈ never_rules ∧ contains_phrase content rule = true).
Proof.
  simpl. split; [|split; [|split; [|split; [|split; [|split]]]]].
  - rewrite !py_sorted_permutation. apply filter_complement_permutation.
  - intros rule. by rewrite py_sorted_elem, elem_of_filter_bool.
  - intros rule. by rewrite py_sorted_elem, elem_of_filter_bool, negb_true_iff.
  - apply py_sorted_strings_Sorted.
  - apply py_sorted_strings_Sorted.
  - by rewrite py_sorted_permutation.
  - rewrite <- is_nonempty_length. apply filter_nonempty_iff.
Qed.

Lemma filter_all_length {A} (f : A → bool) (l : list A) :
  length (List.filter f l) = length l ↔ ∀ x, x ∈ l → f x = true.
Proof.
  induction l as [|a l IH]; simpl.
  - split; [by intros _ x ?%elem_of_nil | done].
  - pose proof (length_filter_le f l) as Hle. destruct (f a) eqn:Ea; simpl.
    + rewrite Nat.succ_inj_wd, IH. split.
      * intros H x [->|Hx]%elem_of_cons; auto.
      * intros H x Hx. apply H. by right.
    + split; [lia|]. intros H. rewrite (H a) in Ea by constructor. done.
Qed.

Lemma filter_none_length {A} (f : A → bool) (l : list A) :
  length (List.filter f l) = 0%nat ↔ ∀ x, x ∈ l → f x = false.
Proof.
  induction l as [|a l IH]; simpl.
  - split; [by intros _ x ?%elem_of_nil | done].
  - destruct (f a) eqn:Ea; simpl.
    + split; [done|]. intros H. rewrite (H a) in Ea by constructor. done.
    + rewrite IH. split.
      * intros H x [->|Hx]%elem_of_cons; auto.
      * intros H x Hx. apply H. by right.
Qed.

Lemma phrase_score_one content phrases :
  (phrase_score content phrases == 1)%Q
  ↔ phrases ≠ [] ∧ ∀ x, x ∈ phrases → contains_phrase content x = true.
Proof.
  unfold phrase_score, Qeq. simpl. rewrite Z.mul_1_r, Z.mul_1_l.
  rewrite <- filter_all_length.
  pose proof (length_filter_le (contains_phrase content) phrases) as Hle.
  destruct phrases as [|x l]; [simpl; split; [lia | by intros [? _]]|].
  replace (Z.pos (Pos.of_nat (Nat.max (length (x :: l)) 1)))
    with (Z.of_nat (length (x :: l))) by (simpl; lia).
  split; [intros H; split; [done|lia] | intros [_ H]; lia].
Qed.

Lemma phrase_score_zero content phrases :
  (phrase_score content phrases == 0)%Q
  ↔ ∀ x, x ∈ phrases → contains_phrase content x = false.
Proof.
  unfold phrase_score, Qeq. simpl. rewrite Z.mul_1_r.
  rewrite <- filter_none_length. lia.
Qed.

(** X2. [CheckToneTool] never raises; the tone score is the share of
    acceptable tones found, between 0 and 1, 1 exactly when the list is
    non-empty and every tone is found, 0 exactly when none is; a violation
    is reported exactly when some unacceptable tone is found; both returned
    lists are in lexicographic order and hold the tones found. *)
Theorem check_tone_report (content : string) (acceptable unacceptable : list string) :
  ∃ r, CheckToneTool_run content acceptable unacceptable = Returned r
    ∧ (0 <= CheckTone.tone_score r)%Q ∧ (CheckTone.tone_score r <= 1)%Q
    ∧ ((CheckTone.tone_score r == 1)%Q
       ↔ acceptable ≠ [] ∧ ∀ t, t ∈ acceptable → contains_phrase content t = true)
    ∧ ((CheckTone.tone_score r == 0)%Q
       ↔ ∀ t, t ∈ acceptable → contains_phrase content t = false)
    ∧ (CheckTone.has_violations r = true
       ↔ ∃ t, t ∈ unacceptable ∧ contains_phrase content t = true)
    ∧ (∀ t, t ∈ CheckTone.acceptable_found r
            ↔ t ∈ acceptable ∧ contains_phrase content t = true)
    ∧ (∀ t, t ∈ CheckTone.unacceptable_found r
            ↔ t ∈ unacceptable ∧ contains_phrase content t = true)
    ∧ Sorted string_le (CheckTone.acceptable_found r)
    ∧ Sorted string_le (CheckTone.unacceptable_found r).
Proof.
  unfold CheckToneTool_run. rewrite truediv_max_returns. simpl.
  fold (phrase_score content acceptable).
  eexists. split; [reflexivity|]. simpl.
  split; [apply phrase_score_range|]. split; [apply phrase_score_range|].
  split; [apply phrase_score_one|]. split; [apply phrase_score_zero|].
  split; [rewrite <- is_nonempty_length; apply filter_nonempty_iff|].
  split; [intros t; by rewrite py_sorted_elem, elem_of_filter_bool|].
  split; [intros t; by rewrite py_sorted_elem, elem_of_filter_bool|].
  split; apply py_sorted_strings_Sorted.
Qed.

(** X3. [CheckValueAlignmentTool] never raises; it splits the values, and
    the voice descriptors, into aligned and missing without losing or
    inventing one; each score lies between 0 and 1, the combined score is
    their mean, and a score is 1 exactly when its list is non-empty with
    nothing missing. *)
Theorem check_value_alignment_report (content : string)
        (values voice_descriptors : list string) :
  ∃ r, CheckValueAlignmentTool_run content values voice_descriptors = Returned r
    ∧ CheckValueAlignment.values_aligned r ++ CheckValueAlignment.values_missing r
      ≡ₚ values
    ∧ CheckValueAlignment.voice_aligned r ++ CheckValueAlignment.voice_missing r
      ≡ₚ voice_descriptors
    ∧ (∀ x, x ∈ CheckValueAlignment.values_aligned r
            ↔ x ∈ values ∧ contains_phrase content x = true)
    ∧ (∀ x, x ∈ CheckValueAlignment.voice_aligned r
            ↔ x ∈ voice_descriptors ∧ contains_phrase content x = true)
    ∧ (0 <= CheckValueAlignment.value_score r)%Q
    ∧ (CheckValueAlignment.value_score r <= 1)%Q
    ∧ (0 <= CheckValueAlignment.voice_score r)%Q
    ∧ (CheckValueAlignment.voice_score r <= 1)%Q
    ∧ (0 <= CheckValueAlignment.combined_score r)%Q
    ∧ (CheckValueAlignment.combined_score r <= 1)%Q
    ∧ ((CheckValueAlignment.value_score r == 1)%Q
       ↔ values ≠ [] ∧ CheckValueAlignment.values_missing r = [])
    ∧ ((CheckValueAlignment.voice_score r == 1)%Q
       ↔ voice_descriptors ≠ [] ∧ CheckValueAlignment.voice_missing r = []).
Proof.
  unfold CheckValueAlignmentTool_run. rewrite !truediv_max_returns. simpl.
  fold (phrase_score content values). fold (phrase_score content voice_descriptors).
  eexists. split; [reflexivity|]. simpl.
  assert (∀ l : list string,
            py_sorted String.leb (List.filter (λ v, negb (contains_phrase content v)) l)
            = [] ↔ ∀ x, x ∈ l → contains_phrase content x = true) as Hmissing.
  { intros l. split.
    - intros H x Hx. destruct (contains_phrase content x) eqn:E; [done|].
      assert (x ∈ py_sorted String.leb
                    (List.filter (λ v, negb (contains_phrase content v)) l)) as Hin.
      { rewrite py_sorted_elem, elem_of_filter_bool. by rewrite E. }
      rewrite H in Hin. by apply elem_of_nil in Hin.
    - intros H.
      destruct (py_sorted String.leb _) as [|x r] eqn:E; [done|].
      assert (x ∈ py_sorted String.leb
                    (List.filter (λ v, negb (contains_phrase content v)) l)) as Hin
        by (rewrite E; constructor).
      rewrite py_sorted_elem, elem_of_filter_bool in Hin.
      destruct Hin as [Hx Hf]. by rewrite (H x Hx) in Hf. }
  split; [rewrite !py_sorted_permutation; apply filter_complement_permutation|].
  split; [rewrite !py_sorted_permutation; apply filter_complement_permutation|].
  split; [intros x; by rewrite py_sorted_elem, elem_of_filter_bool|].
  split; [intros x; by rewrite py_sorted_elem, elem_of_filter_bool|].
  do 4 (split; [apply phrase_score_range|]).
  split; [apply mean_range; apply phrase_score_range|].
  split; [apply mean_range; apply phrase_score_range|].
  split; by rewrite phrase_score_one, Hmissing.
Qed.

(** ** The later stages touch the explanations only *)

Lemma set_explanations_twice e e' l :
  set_explanations e (set_explanations e' l) = set_explanations e l.
Proof. reflexivity. Qed.

Lemma set_explanations_same l : set_explanations (explanations l) l = l.
Proof. by destruct l. Qed.

Lemma positive_stage_only_explanations l l' :
  positive_stage l = Returned l' → l' = set_explanations (explanations l') l.
Proof.
  unfold positive_stage.
  destruct (negb _); [|intros [= <-]; by rewrite set_explanations_same].
  destruct (Qltb _ _); [by intros [= <-]|].
  destruct (Qltb _ _); by intros [= <-].
Qed.

Lemma voice_fill_stage_only_explanations p c l l' :
  voice_fill_stage p c l = Returned l' → l' = set_explanations (explanations l') l.
Proof.
  unfold voice_fill_stage.
  destruct (_ && _); [|intros [= <-]; by rewrite set_explanations_same].
  destruct (is_nonempty _); intros [= <-]; [done|by rewrite set_explanations_same].
Qed.

Lemma tone_fill_stage_only_explanations l l' :
  tone_fill_stage l = Returned l' → l' = set_explanations (explanations l') l.
Proof.
  unfold tone_fill_stage.
  destruct (_ && _); intros [= <-]; [done|by rewrite set_explanations_same].
Qed.

Lemma final_guarantee_stage_only_explanations l l' :
  final_guarantee_stage l = Returned l' → l' = set_explanations (explanations l') l.
Proof.
  unfold final_guarantee_stage.
  destruct (negb _); intros [= <-]; [done|by rewrite set_explanations_same].
Qed.

Lemma run_stages_app fs gs l :
  run_stages (fs ++ gs) l = l' ← run_stages fs l; run_stages gs l'.
Proof.
  revert l. induction fs as [|f fs IH]; intros l; simpl; [done|].
  destruct (f l) as [l'|e]; simpl; [apply IH | done].
Qed.

Lemma Qltb_half_three_tenths b : Qltb (1 # 2) b = true → Qltb (3 # 10) b = true.
Proof.
  rewrite !Qltb_lt. intros H. eapply Qlt_trans; [|exact H]. done.
Qed.

Lemma StronglySorted_sort_by_key {A} (key : A → nat) (l : list A) :
  StronglySorted (key_le key) l → sort_by_key key l = l.
Proof.
  induction 1 as [|x l Hl IH Hx]; [done|].
  change (sort_by_key key (x :: l))
    with (insert_sorted (λ a b, (key a <=? key b)%nat) x (sort_by_key key l)).
  rewrite IH. destruct l as [|y l]; simpl; [done|].
  apply Forall_cons in Hx as [Hxy _]. unfold key_le in Hxy.
  by rewrite (proj2 (Nat.leb_le _ _) Hxy).
Qed.

Section RunDetails.
Context {p : BrandProfile} {c : string} {l1 l2 l3 l4 l5 l6 l7 l8 : Locals}
        {v : Verdict.t}.
Hypothesis R : pipeline_run p c l1 l2 l3 l4 l5 l6 l7 l8 v.

Lemma run_final_locals : l8 = set_explanations (explanations l8) l4.
Proof.
  rewrite (final_guarantee_stage_only_explanations _ _
             (run_final_guarantee _ _ _ _ _ _ _ _ _ _ _ R)).
  rewrite (tone_fill_stage_only_explanations _ _
             (run_tone_fill _ _ _ _ _ _ _ _ _ _ _ R)).
  rewrite (voice_fill_stage_only_explanations _ _ _ _
             (run_voice_fill _ _ _ _ _ _ _ _ _ _ _ R)).
  rewrite (positive_stage_only_explanations _ _
             (run_positive _ _ _ _ _ _ _ _ _ _ _ R)).
  reflexivity.
Qed.

(** The findings of the four deciding stages, as they stand at the end. *)
Lemma run_findings :
  never_violations l8 = List.filter (contains_phrase c) (never_rules p)
  ∧ unacceptable_found l8 = List.filter (contains_phrase c) (tone_unacceptable p)
  ∧ bad_similarity l8 = bad_similarity l3
  ∧ value_score l8 = phrase_score c (values p)
  ∧ voice_score l8 = phrase_score c (voice_descriptors p).
Proof.
  rewrite run_final_locals. simpl.
  at_run (never_rule_stage_spec p c initial_locals)
         (run_never_rule _ _ _ _ _ _ _ _ _ _ _ R).
  destruct H as (Hnv & _).
  at_run (tone_stage_spec p c l1) (run_tone _ _ _ _ _ _ _ _ _ _ _ R).
  destruct H as (Hut & _ & Hnv2 & _).
  at_run (example_stage_spec p c l2) (run_example _ _ _ _ _ _ _ _ _ _ _ R).
  destruct H as (_ & Hnv3 & Hut3 & _).
  at_run (alignment_stage_spec p c l3) (run_alignment _ _ _ _ _ _ _ _ _ _ _ R).
  destruct H as (_ & Hnv4 & Hut4 & Hb4 & Hvs & Hvo & _).
  repeat split; congruence.
Qed.

(** The verdict dict, field by field. *)
Lemma run_verdict_value :
  ∃ label,
    dict_getitem status_display (status l8) = Returned label
    ∧ v = {| Verdict.status := status l8;
             Verdict.statusDisplay := label;
             Verdict.explanations :=
               take 3 (sort_by_key severity_rank (explanations l8));
             Verdict.confidence := confidence l8;
             Verdict.profileVersion := version p;
             Verdict.details :=
               {| Details.neverRuleViolations :=
                    py_sorted String.leb (never_violations l8);
                  Details.unacceptableToneFound :=
                    py_sorted String.leb (unacceptable_found l8);
                  Details.valueAlignmentScore := value_score l8;
                  Details.voiceAlignmentScore := voice_score l8;
                  Details.exampleSimilarity_good := good_similarity l8;
                  Details.exampleSimilarity_bad := bad_similarity l8 |} |}.
Proof.
  destruct (status_display_total (status l8)) as (label & El).
  exists label. split; [done|].
  pose proof (run_verdict _ _ _ _ _ _ _ _ _ _ _ R) as Hv.
  unfold evaluate, stages in Hv. rewrite app_assoc, run_stages_app in Hv.
  rewrite (run_accumulated _ _ _ _ _ _ _ _ _ _ _ R) in Hv.
  cbn -[dict_getitem status_display sort_by_key take] in Hv.
  rewrite El in Hv. by injection Hv as <-.
Qed.

(** The accumulated explanations: those of the deciding stages, then
    informational ones. *)
Lemma run_explanations_layout :
  explanations l4
  = decisive_explanations (List.filter (contains_phrase c) (never_rules p))
      (List.filter (contains_phrase c) (tone_unacceptable p)) (bad_similarity l3)
  ∧ ∃ infos, explanations l8 = explanations l4 ++ infos
             ∧ Forall (λ e, severity e = INFO) infos.
Proof.
  split.
  - at_run (never_rule_stage_spec p c initial_locals)
           (run_never_rule _ _ _ _ _ _ _ _ _ _ _ R).
    destruct H as (Hnv & H1).
    at_run (tone_stage_spec p c l1) (run_tone _ _ _ _ _ _ _ _ _ _ _ R).
    destruct H as (Hut & _ & _ & H2).
    at_run (example_stage_spec p c l2) (run_example _ _ _ _ _ _ _ _ _ _ _ R).
    destruct H as (_ & _ & _ & H3).
    at_run (alignment_stage_spec p c l3) (run_alignment _ _ _ _ _ _ _ _ _ _ _ R).
    destruct H as (-> & _).
    rewrite Hnv in H1. rewrite Hut in H2. unfold decisive_explanations.
    destruct (List.filter _ (never_rules p)) as [|n ?];
      destruct H1 as (_ & _ & E1);
      destruct (List.filter _ (tone_unacceptable p)) as [|t ?];
      destruct H2 as (_ & _ & E2); rewrite E1 in E2; simpl in E2;
      destruct (Qltb (3 # 10) (bad_similarity l3));
      destruct H3 as (_ & _ & E3); rewrite E2 in E3; simpl in E3;
      by rewrite E3.
  - destruct (run_explanation_stages R)
      as ((_ & _ & H5) & (_ & _ & H6) & (_ & _ & H7) & (_ & _ & H8) & _).
    assert (∀ l l' : Locals,
              explanations l' = explanations l
              ∨ (length (explanations l) < 3)%nat
                ∧ (∃ e, severity e = INFO ∧ explanations l' = explanations l ++ [e]) →
              ∃ k, explanations l' = explanations l ++ k
                   ∧ Forall (λ e, severity e = INFO) k) as Hstep.
    { intros l l' [->|(_ & e & He & ->)].
      - exists []. by rewrite app_nil_r.
      - exists [e]. split; [done|]. by constructor. }
    destruct (Hstep _ _ H5) as (k5 & E5 & F5).
    destruct (Hstep _ _ H6) as (k6 & E6 & F6).
    destruct (Hstep _ _ H7) as (k7 & E7 & F7).
    destruct (Hstep _ _ H8) as (k8 & E8 & F8).
    exists (k5 ++ k6 ++ k7 ++ k8). split.
    + rewrite E8, E7, E6, E5. by rewrite <- !app_assoc.
    + by rewrite !Forall_app.
Qed.

(** Status and confidence at the end, from the findings. *)
Lemma run_decision :
  (status l8, confidence l8)
  = decision_table (List.filter (contains_phrase c) (never_rules p))
      (List.filter (contains_phrase c) (tone_unacceptable p)) (bad_similarity l3)
      (phrase_score c (values p)) (phrase_score c (voice_descriptors p)).
Proof.
  destruct (run_decision_final R) as [-> ->].
  assert ((status l1, confidence l1)
          = if is_nonempty (List.filter (contains_phrase c) (never_rules p))
            then (OFF_BRAND, 95%Z) else (ON_BRAND, 85%Z)) as A1.
  { at_run (never_rule_stage_spec p c initial_locals)
           (run_never_rule _ _ _ _ _ _ _ _ _ _ _ R).
    destruct H as (<- & H). destruct (never_violations l1).
    - by destruct H as (-> & -> & _).
    - by destruct H as (-> & -> & _). }
  assert ((status l2, confidence l2)
          = if is_nonempty (List.filter (contains_phrase c) (tone_unacceptable p))
            then (OFF_BRAND, Z.max (confidence l1) 90)
            else (status l1, confidence l1)) as A2.
  { at_run (tone_stage_spec p c l1) (run_tone _ _ _ _ _ _ _ _ _ _ _ R).
    destruct H as (<- & _ & _ & H). destruct (unacceptable_found l2).
    - by destruct H as (-> & -> & _).
    - by destruct H as (-> & -> & _). }
  assert ((status l3, confidence l3)
          = if Qltb (3 # 10) (bad_similarity l3)
            then (if decide (status l2 = OFF_BRAND) then OFF_BRAND
                  else if Qltb (1 # 2) (bad_similarity l3) then OFF_BRAND
                       else BORDERLINE,
                  Z.max (confidence l2) 80)
            else (status l2, confidence l2)) as A3.
  { at_run (example_stage_spec p c l2) (run_example _ _ _ _ _ _ _ _ _ _ _ R).
    destruct H as (_ & _ & _ & H). destruct (Qltb (3 # 10) (bad_similarity l3)).
    - by destruct H as (-> & -> & _).
    - by destruct H as (-> & -> & _). }
  assert ((status l4, confidence l4)
          = if decide (status l3 = ON_BRAND)
            then alignment_verdict (phrase_score c (values p))
                                   (phrase_score c (voice_descriptors p))
            else (status l3, confidence l3)) as A4.
  { at_run (alignment_stage_spec p c l3) (run_alignment _ _ _ _ _ _ _ _ _ _ _ R).
    destruct H as (_ & _ & _ & _ & Hvs & Hvo & Hcs & H).
    unfold alignment_verdict. rewrite <- Hvs, <- Hvo, <- Hcs.
    destruct (decide (status l3 = ON_BRAND)); [|by destruct H as [-> ->]].
    destruct (Qltb (combined_score l4) (3 # 10)); [by destruct H as [-> ->]|].
    destruct (Qltb (combined_score l4) (1 # 2)); by destruct H as [-> ->]. }
  rewrite A4. unfold decision_table.
  destruct (is_nonempty (List.filter _ (never_rules p)));
    destruct (is_nonempty (List.filter _ (tone_unacceptable p)));
    injection A1 as S1 C1; rewrite ?S1, ?C1 in A2; injection A2 as S2 C2;
    rewrite ?S2, ?C2 in A3;
    destruct (Qltb (3 # 10) (bad_similarity l3));
    try destruct (Qltb (1 # 2) (bad_similarity l3));
    injection A3 as S3 C3; rewrite S3, C3; reflexivity.
Qed.
End RunDetails.

(** ** The verdict and its details *)

Lemma decision_table_sorted nv ut bad vs vos :
  decision_table (py_sorted String.leb nv) (py_sorted String.leb ut) bad vs vos
  = decision_table nv ut bad vs vos.
Proof. unfold decision_table. by rewrite !py_sorted_nonempty. Qed.

(** X4. Status and confidence can be recomputed from the audit details the
    verdict carries: off-brand at 95 when a never-rule is violated, else
    off-brand at 90 when an unacceptable tone is found, else at 85 off-brand
    or borderline when the similarity to bad examples is above 0.5 or above
    0.3, else the outcome of the value/voice scores (borderline at 70 or 75,
    or on-brand at [80 + int(15 * combined)]). *)
Theorem verdict_follows_details (p : BrandProfile) (c : string) :
  ∃ v, evaluate p c = Returned v
    ∧ (Verdict.status v, Verdict.confidence v)
      = decision_table
          (Details.neverRuleViolations (Verdict.details v))
          (Details.unacceptableToneFound (Verdict.details v))
          (Details.exampleSimilarity_bad (Verdict.details v))
          (Details.valueAlignmentScore (Verdict.details v))
          (Details.voiceAlignmentScore (Verdict.details v)).
Proof.
  destruct (pipeline_run_exists p c) as (l1 & l2 & l3 & l4 & l5 & l6 & l7 & l8 & v & R).
  exists v. split; [apply (run_verdict _ _ _ _ _ _ _ _ _ _ _ R)|].
  destruct (run_verdict_value R) as (label & _ & ->). simpl.
  destruct (run_findings R) as (-> & -> & -> & -> & ->).
  rewrite decision_table_sorted. apply (run_decision R).
Qed.

(** X5. The details of the verdict are what the stand-alone tools report on
    the same content: the violated rules of [CheckNeverRulesTool], the
    unacceptable tones of [CheckToneTool], the value and voice scores of
    [CheckValueAlignmentTool]. *)
Theorem details_are_tool_reports (p : BrandProfile) (c : string) :
  ∃ v tone alignment,
    evaluate p c = Returned v
    ∧ CheckToneTool_run c (tone_acceptable p) (tone_unacceptable p) = Returned tone
    ∧ CheckValueAlignmentTool_run c (values p) (voice_descriptors p)
      = Returned alignment
    ∧ Details.neverRuleViolations (Verdict.details v)
      = CheckNeverRules.violated (CheckNeverRulesTool_run c (never_rules p))
    ∧ Details.unacceptableToneFound (Verdict.details v)
      = CheckTone.unacceptable_found tone
    ∧ Details.valueAlignmentScore (Verdict.details v)
      = CheckValueAlignment.value_score alignment
    ∧ Details.voiceAlignmentScore (Verdict.details v)
      = CheckValueAlignment.voice_score alignment.
Proof.
  destruct (pipeline_run_exists p c) as (l1 & l2 & l3 & l4 & l5 & l6 & l7 & l8 & v & R).
  exists v. unfold CheckToneTool_run, CheckValueAlignmentTool_run.
  rewrite !truediv_max_returns. simpl. do 2 eexists.
  split; [apply (run_verdict _ _ _ _ _ _ _ _ _ _ _ R)|].
  split; [reflexivity|]. split; [reflexivity|].
  destruct (run_verdict_value R) as (label & _ & ->). simpl.
  by destruct (run_findings R) as (-> & -> & _ & -> & ->).
Qed.

Lemma sorted_after_critical x (l : list BrandExplanation) :
  severity x = CRITICAL →
  StronglySorted (key_le severity_rank) l →
  StronglySorted (key_le severity_rank) (x :: l).
Proof.
  intros Hx Hl. constructor; [done|].
  apply Forall_forall. intros y _. unfold key_le. rewrite Hx. simpl. lia.
Qed.

Lemma sorted_infos (l : list BrandExplanation) :
  Forall (λ e, severity e = INFO) l → StronglySorted (key_le severity_rank) l.
Proof.
  induction 1 as [|x l Hx Hl IH]; constructor; [done|].
  eapply Forall_impl; [exact Hl|]. intros y Hy. unfold key_le.
  rewrite Hx, Hy. done.
Qed.

Lemma sorted_before_infos x (l : list BrandExplanation) :
  Forall (λ e, severity e = INFO) l →
  StronglySorted (key_le severity_rank) (x :: l).
Proof.
  intros Hl. constructor; [by apply sorted_infos|].
  eapply Forall_impl; [exact Hl|]. intros y Hy. unfold key_le.
  rewrite Hy. destruct (severity x); simpl; lia.
Qed.

Lemma decisive_then_infos_sorted nv ut bad infos :
  Forall (λ e, severity e = INFO) infos →
  StronglySorted (key_le severity_rank) (decisive_explanations nv ut bad ++ infos).
Proof.
  intros Hinfos. unfold decisive_explanations.
  destruct nv as [|n ?], ut as [|t ?], (Qltb (3 # 10) bad); simpl;
    repeat (apply sorted_after_critical; [done|]);
    try (by apply sorted_infos); by apply sorted_before_infos.
Qed.

Lemma run_explanations_unchanged p c l1 l2 l3 l4 l5 l6 l7 l8 v :
  pipeline_run p c l1 l2 l3 l4 l5 l6 l7 l8 v →
  Verdict.explanations v = explanations l8.
Proof.
  intros R. destruct (run_explanations_layout R) as (E4 & infos & E8 & Hinfos).
  rewrite (run_verdict_explanations R), E8, E4.
  by apply StronglySorted_sort_by_key, decisive_then_infos_sorted.
Qed.

(** X6. The explanations of the verdict are the accumulated ones, as
    accumulated: the final sort and the cut to three change nothing. They
    are the never-rule explanation, the tone explanation and the
    bad-example explanation, each one present exactly when its stage fired,
    followed by informational explanations only. *)
Theorem explanations_layout (p : BrandProfile) (c : string) :
  ∃ l8 v infos,
    run_stages (decision_stages p c ++ explanation_stages p c) initial_locals
    = Returned l8
    ∧ evaluate p c = Returned v
    ∧ Verdict.explanations v = explanations l8
    ∧ Verdict.explanations v
      = decisive_explanations
          (List.filter (contains_phrase c) (never_rules p))
          (List.filter (contains_phrase c) (tone_unacceptable p))
          (Details.exampleSimilarity_bad (Verdict.details v))
        ++ infos
    ∧ Forall (λ e, severity e = INFO) infos.
Proof.
  destruct (pipeline_run_exists p c) as (l1 & l2 & l3 & l4 & l5 & l6 & l7 & l8 & v & R).
  destruct (run_explanations_layout R) as (E4 & infos & E8 & Hinfos).
  exists l8, v, infos.
  split; [apply (run_accumulated _ _ _ _ _ _ _ _ _ _ _ R)|].
  split; [apply (run_verdict _ _ _ _ _ _ _ _ _ _ _ R)|].
  assert (Details.exampleSimilarity_bad (Verdict.details v) = bad_similarity l3) as ->.
  { destruct (run_verdict_value R) as (label & _ & ->). simpl.
    by destruct (run_findings R) as (_ & _ & -> & _). }
  rewrite (run_explanations_unchanged _ _ _ _ _ _ _ _ _ _ _ R).
  split; [done|]. split; [by rewrite E8, E4 | done].
Qed.

(** ** Status, severity and confidence *)

Lemma alignment_verdict_bands vs vos s k :
  (0 <= vs)%Q ∧ (vs <= 1)%Q → (0 <= vos)%Q ∧ (vos <= 1)%Q →
  alignment_verdict vs vos = (s, k) →
  s = BORDERLINE ∧ (k = 70 ∨ k = 75)%Z ∨ s = ON_BRAND ∧ (87 ≤ k ≤ 95)%Z.
Proof.
  intros Hvs Hvo. unfold alignment_verdict.
  destruct (mean_range vs vos Hvs Hvo) as [Hc0 Hc1].
  destruct (Qltb _ (3 # 10)); [intros [= <- <-]; auto|].
  destruct (Qltb _ (1 # 2)) eqn:E5; [intros [= <- <-]; auto|].
  intros [= <- <-]. right. split; [done|].
  apply Qltb_ge in E5.
  assert (0 <= (vs + vos) / 2 * 15)%Q as Hnn
    by (apply Qmult_le_0_compat; done).
  rewrite (py_int_floor _ Hnn).
  assert (Qfloor ((1 # 2) * 15) ≤ Qfloor ((vs + vos) / 2 * 15))%Z as Hlo
    by (apply Qfloor_resp_le, Qmult_le_compat_r; done).
  assert (Qfloor ((vs + vos) / 2 * 15) ≤ Qfloor (1 * 15))%Z as Hhi
    by (apply Qfloor_resp_le, Qmult_le_compat_r; done).
  change (Qfloor ((1 # 2) * 15)) with 7%Z in Hlo.
  change (Qfloor (1 * 15)) with 15%Z in Hhi. lia.
Qed.

Lemma decision_table_bands nv ut bad vs vos s k :
  (0 <= vs)%Q ∧ (vs <= 1)%Q → (0 <= vos)%Q ∧ (vos <= 1)%Q →
  decision_table nv ut bad vs vos = (s, k) →
  s = OFF_BRAND ∧ (k = 85 ∨ k = 90 ∨ k = 95)%Z
  ∨ s = BORDERLINE ∧ (k = 70 ∨ k = 75 ∨ k = 85)%Z
  ∨ s = ON_BRAND ∧ (87 ≤ k ≤ 95)%Z.
Proof.
  intros Hvs Hvo. unfold decision_table.
  destruct (is_nonempty nv); [intros [= <- <-]; auto|].
  destruct (is_nonempty ut); [intros [= <- <-]; auto|].
  destruct (Qltb (3 # 10) bad).
  - destruct (Qltb (1 # 2) bad); intros [= <- <-]; auto 6.
  - intros H. destruct (alignment_verdict_bands _ _ _ _ Hvs Hvo H)
      as [(-> & [->| ->])|(-> & ?)]; auto 6.
Qed.

(** X7. The confidence of a verdict is one of a few values fixed by its
    status: 85, 90 or 95 when off-brand, 70, 75 or 85 when borderline, and
    between 87 and 95 when on-brand; so it always lies in [70, 95]. *)
Theorem confidence_bands (p : BrandProfile) (c : string) :
  ∃ v, evaluate p c = Returned v
    ∧ (70 ≤ Verdict.confidence v ≤ 95)%Z
    ∧ (Verdict.status v = OFF_BRAND →
       Verdict.confidence v ∈ [85; 90; 95]%Z)
    ∧ (Verdict.status v = BORDERLINE →
       Verdict.confidence v ∈ [70; 75; 85]%Z)
    ∧ (Verdict.status v = ON_BRAND →
       (87 ≤ Verdict.confidence v ≤ 95)%Z).
Proof.
  destruct (pipeline_run_exists p c) as (l1 & l2 & l3 & l4 & l5 & l6 & l7 & l8 & v & R).
  exists v. split; [apply (run_verdict _ _ _ _ _ _ _ _ _ _ _ R)|].
  rewrite (run_status _ _ _ _ _ _ _ _ _ _ _ R),
          (run_confidence _ _ _ _ _ _ _ _ _ _ _ R).
  pose proof (run_decision R) as Hd. symmetry in Hd.
  apply decision_table_bands in Hd; [|apply phrase_score_range..].
  destruct Hd as [(-> & Hk)|[(-> & Hk)|(-> & Hk)]].
  - split; [lia|]. split; [|done].
    intros _. destruct Hk as [->|[->| ->]]; set_solver.
  - split; [lia|]. split; [done|]. split; [|done].
    intros _. destruct Hk as [->|[->| ->]]; set_solver.
  - split; [lia|]. done.
Qed.

Lemma confidence_bands_witness :
  ∃ v, evaluate scenario4_profile scenario4_content = Returned v
       ∧ Verdict.status v = ON_BRAND
       ∧ (87 ≤ Verdict.confidence v ≤ 95)%Z.
Proof.
  destruct (confidence_bands scenario4_profile scenario4_content)
    as (v & Hv & _ & _ & _ & Hon).
  exists v. split; [exact Hv|].
  assert (Verdict.status v = ON_BRAND) as Hs.
  { assert (status_of : (v' ← evaluate scenario4_profile scenario4_content;
                         mret (Verdict.status v')) = Returned ON_BRAND)
      by (vm_compute; reflexivity).
    rewrite Hv in status_of. by injection status_of. }
  split; [exact Hs | exact (Hon Hs)].
Defined.

Lemma decision_table_severity nv ut bad vs vos infos s k :
  decision_table nv ut bad vs vos = (s, k) →
  Forall (λ e, severity e = INFO) infos →
  (s = OFF_BRAND
   ↔ ∃ e, e ∈ decisive_explanations nv ut bad ++ infos ∧ severity e = CRITICAL)
  ∧ (s = OFF_BRAND →
     severity <$> head (decisive_explanations nv ut bad ++ infos) = Some CRITICAL)
  ∧ (s = ON_BRAND →
     Forall (λ e, severity e = INFO) (decisive_explanations nv ut bad ++ infos)).
Proof.
  intros Hd Hinfos.
  assert (∀ e, e ∈ infos → severity e ≠ CRITICAL) as Hno.
  { intros e He. rewrite Forall_forall in Hinfos. by rewrite (Hinfos e He). }
  unfold decision_table in Hd. unfold decisive_explanations.
  destruct nv as [|n ?]; simpl in Hd |- *.
  2: { injection Hd as <- <-. split; [|done].
       split; [|done]. intros _. eexists. split; [constructor|done]. }
  destruct ut as [|t ?]; simpl in Hd |- *.
  2: { injection Hd as <- <-. split; [|done].
       split; [|done]. intros _. eexists. split; [constructor|done]. }
  destruct (Qltb (3 # 10) bad); simpl.
  - destruct (Qltb (1 # 2) bad); injection Hd as <- <-.
    + split; [|done]. split; [|done]. intros _. eexists. split; [constructor|done].
    + split; [|done]. split; [done|].
      intros (e & [->|He]%elem_of_cons & Hc); [done|by destruct (Hno e He)].
  - assert (s ≠ OFF_BRAND) as Hs.
    { unfold alignment_verdict in Hd.
      destruct (Qltb _ _); [by injection Hd as <- <-|].
      destruct (Qltb _ _); by injection Hd as <- <-. }
    split; [|done]. split; [done|].
    intros (e & He & Hc). by destruct (Hno e He).
Qed.

(** X8. The status shows in the explanations: the verdict is off-brand
    exactly when one of its explanations is critical, and then the first
    one is; an on-brand verdict has informational explanations only. *)
Theorem status_shows_in_severity (p : BrandProfile) (c : string) :
  ∃ v, evaluate p c = Returned v
    ∧ (Verdict.status v = OFF_BRAND
       ↔ ∃ e, e ∈ Verdict.explanations v ∧ severity e = CRITICAL)
    ∧ (Verdict.status v = OFF_BRAND →
       severity <$> head (Verdict.explanations v) = Some CRITICAL)
    ∧ (Verdict.status v = ON_BRAND →
       Forall (λ e, severity e = INFO) (Verdict.explanations v)).
Proof.
  destruct (pipeline_run_exists p c) as (l1 & l2 & l3 & l4 & l5 & l6 & l7 & l8 & v & R).
  exists v. split; [apply (run_verdict _ _ _ _ _ _ _ _ _ _ _ R)|].
  rewrite (run_status _ _ _ _ _ _ _ _ _ _ _ R),
          (run_explanations_unchanged _ _ _ _ _ _ _ _ _ _ _ R).
  destruct (run_explanations_layout R) as (E4 & infos & E8 & Hinfos).
  rewrite E8, E4.
  pose proof (run_decision R) as Hd. symmetry in Hd.
  exact (decision_table_severity _ _ _ _ _ _ _ _ Hd Hinfos).
Qed.

Lemma status_shows_in_severity_witness :
  ∃ v, evaluate scenario3_profile scenario3_content = Returned v
       ∧ Verdict.status v = OFF_BRAND
       ∧ severity <$> head (Verdict.explanations v) = Some CRITICAL.
Proof.
  destruct (status_shows_in_severity scenario3_profile scenario3_content)
    as (v & Hv & _ & Hhead & _).
  exists v. split; [exact Hv|].
  assert (Verdict.status v = OFF_BRAND) as Hs.
  { assert (status_of : (v' ← evaluate scenario3_profile scenario3_content;
                         mret (Verdict.status v')) = Returned OFF_BRAND)
      by (vm_compute; reflexivity).
    rewrite Hv in status_of. by injection status_of. }
  split; [exact Hs | exact (Hhead Hs)].
Defined.

(** ** The content counts through its normal form only *)

Lemma for_each_ext {A B} (f g : B → A → M B) (acc : B) (xs : list A) :
  (∀ a x, f a x = g a x) → for_each f acc xs = for_each g acc xs.
Proof.
  intros H. revert acc. induction xs as [|x xs IH]; intros acc; simpl; [done|].
  rewrite H. destruct (g acc x); simpl; [apply IH | done].
Qed.

Lemma run_stages_ext (fs gs : list (Locals → M Locals)) (l : Locals) :
  Forall2 (λ f g, ∀ l, f l = g l) fs gs → run_stages fs l = run_stages gs l.
Proof.
  intros H. revert l. induction H as [|f g fs gs Hfg _ IH]; intros l; simpl; [done|].
  rewrite Hfg. destruct (g l); simpl; [apply IH | done].
Qed.

Section SameNormalForm.
Variables (p : BrandProfile) (c c' : string).
Hypothesis Hnorm : normalize_text c = normalize_text c'.

Lemma contains_phrase_same x : contains_phrase c x = contains_phrase c' x.
Proof. unfold contains_phrase. by rewrite Hnorm. Qed.

Lemma filter_contains_same (l : list string) :
  List.filter (contains_phrase c) l = List.filter (contains_phrase c') l.
Proof. apply filter_ext, contains_phrase_same. Qed.

Lemma filter_missing_same (l : list string) :
  List.filter (λ v, negb (contains_phrase c v)) l
  = List.filter (λ v, negb (contains_phrase c' v)) l.
Proof. apply filter_ext. intros x. by rewrite contains_phrase_same. Qed.

Lemma tokenize_same : tokenize c = tokenize c'.
Proof. unfold tokenize. by rewrite Hnorm. Qed.

Lemma calculate_word_overlap_same x :
  calculate_word_overlap c x = calculate_word_overlap c' x.
Proof. unfold calculate_word_overlap. by rewrite tokenize_same. Qed.

Lemma stages_same :
  Forall2 (λ f g, ∀ l, f l = g l) (stages p c) (stages p c').
Proof.
  unfold stages, decision_stages, explanation_stages. simpl.
  repeat constructor; intros l.
  - unfold never_rule_stage. by rewrite filter_contains_same.
  - unfold tone_stage. by rewrite !filter_contains_same.
  - unfold example_stage.
    rewrite (for_each_ext (similarity_step c) (similarity_step c')); [done|].
    intros acc x. unfold similarity_step. by rewrite calculate_word_overlap_same.
  - unfold alignment_stage. by rewrite !filter_contains_same.
  - unfold voice_fill_stage. by rewrite filter_missing_same.
Qed.

Lemma evaluate_same : evaluate p c = evaluate p c'.
Proof. unfold evaluate. by rewrite (run_stages_ext _ _ _ stages_same). Qed.
End SameNormalForm.

Lemma run_same_but_hash (file : ProfileFile) (c c' : string) :
  normalize_text c = normalize_text c' →
  same_but_hash (BrandCheckerTool_run file c) (BrandCheckerTool_run file c').
Proof.
  intros H. destruct file as [[data|]|]; simpl; try done.
  unfold model_validate. destruct (BrandProfile_valid data); [|done].
  rewrite (evaluate_same data c c' H).
  destruct (evaluate data c') as [v|e]; simpl; [|done].
  unfold verdict_dict.
  destruct (compute_content_hash (code_points c)) as [h|e] eqn:E; simpl.
  - destruct (compute_content_hash (code_points c')) as [h'|e'] eqn:E'; [done|].
    unfold compute_content_hash in E'.
    destruct (encode_returns _ (code_points_no_surrogate c')) as [bs Hbs].
    by rewrite Hbs in E'.
  - unfold compute_content_hash in E.
    destruct (encode_returns _ (code_points_no_surrogate c)) as [bs Hbs].
    by rewrite Hbs in E.
Qed.

(** X9. Two contents with the same normalized text (the same up to letter
    case and the layout of whitespace) are the same to the stages: under
    every profile they reach the same status, label, explanations,
    confidence and details, and the three stand-alone tools return the
    same. The two calls of the checker end the same way, and where they
    return verdict dicts these differ at most in [contentHash], which is
    the digest of the raw content (and in [checkedAt], which is left
    out). *)
Theorem verdict_depends_on_normalized_content
        (p : BrandProfile) (c c' : string) :
  normalize_text c = normalize_text c' →
  evaluate p c = evaluate p c'
  ∧ (∀ file, same_but_hash (BrandCheckerTool_run file c)
                           (BrandCheckerTool_run file c'))
  ∧ CheckNeverRulesTool_run c (never_rules p)
    = CheckNeverRulesTool_run c' (never_rules p)
  ∧ CheckToneTool_run c (tone_acceptable p) (tone_unacceptable p)
    = CheckToneTool_run c' (tone_acceptable p) (tone_unacceptable p)
  ∧ CheckValueAlignmentTool_run c (values p) (voice_descriptors p)
    = CheckValueAlignmentTool_run c' (values p) (voice_descriptors p).
Proof.
  intros H. split; [by apply evaluate_same|].
  split; [intros file; by apply run_same_but_hash|].
  unfold CheckNeverRulesTool_run, CheckToneTool_run, CheckValueAlignmentTool_run.
  by rewrite !(filter_contains_same c c' H), !(filter_missing_same c c' H).
Qed.

Lemma verdict_depends_on_normalized_content_witness :
  normalize_text "  BUY   now " = normalize_text "buy now"
  ∧ evaluate scenario3_profile "  BUY   now " = evaluate scenario3_profile "buy now"
  ∧ same_but_hash
      (BrandCheckerTool_run (Some (Some scenario3_profile)) "  BUY   now ")
      (BrandCheckerTool_run (Some (Some scenario3_profile)) "buy now")
  ∧ compute_content_hash (code_points "  BUY   now ")
    ≠ compute_content_hash (code_points "buy now").
Proof.
  assert (normalize_text "  BUY   now " = normalize_text "buy now") as H
    by reflexivity.
  destruct (verdict_depends_on_normalized_content scenario3_profile _ _ H)
    as (He & Hr & _).
  split; [exact H|]. split; [exact He|]. split; [exact (Hr _)|].
  intros E. vm_compute in E. discriminate E.
Defined.

(** ** A stricter profile *)

Lemma is_max_similarity_mono c exs exs' b b' :
  (∀ e, e ∈ examples_of_type bad exs → e ∈ examples_of_type bad exs') →
  is_max_similarity bad c exs b → is_max_similarity bad c exs' b' →
  (b <= b')%Q.
Proof.
  intros Hsub (H0 & _ & Hwit) (H0' & Hub' & Hwit').
  destruct (examples_of_type bad exs) as [|e0 r] eqn:E.
  - rewrite (H0 eq_refl).
    destruct (examples_of_type bad exs') as [|e1 r'] eqn:E'.
    + rewrite (H0' eq_refl). apply Qle_refl.
    + destruct (Hub' e1) as (q & Hq & Hle); [constructor|].
      rewrite calculate_word_overlap_value in Hq. injection Hq as <-.
      eapply Qle_trans; [apply overlap_value_range | exact Hle].
  - destruct Hwit as (e & q & He & Hq & Heq); [done|].
    destruct (Hub' e (Hsub e He)) as (q' & Hq' & Hle).
    rewrite Hq in Hq'. injection Hq' as <-. by rewrite <- Heq.
Qed.

Lemma alignment_verdict_not_off vs vos :
  fst (alignment_verdict vs vos) ≠ OFF_BRAND.
Proof.
  unfold alignment_verdict. destruct (Qltb _ _); [done|]. by destruct (Qltb _ _).
Qed.

Lemma decision_table_mono nv nv' ut ut' b b' vs vos :
  (is_nonempty nv = true → is_nonempty nv' = true) →
  (is_nonempty ut = true → is_nonempty ut' = true) →
  (b <= b')%Q →
  escalates (fst (decision_table nv ut b vs vos))
            (fst (decision_table nv' ut' b' vs vos)).
Proof.
  intros Hnv Hut Hb. unfold decision_table.
  destruct (is_nonempty nv'); [apply escalates_off|].
  destruct (is_nonempty nv); [by discriminate Hnv|].
  destruct (is_nonempty ut'); [apply escalates_off|].
  destruct (is_nonempty ut); [by discriminate Hut|].
  destruct (Qltb (3 # 10) b') eqn:E3'.
  - destruct (Qltb (1 # 2) b') eqn:E5'; [apply escalates_off|]. simpl.
    apply Qltb_ge in E5'.
    assert (Qltb (1 # 2) b = false) as ->
      by (apply Qltb_ge; by eapply Qle_trans).
    destruct (Qltb (3 # 10) b); [apply escalates_refl|].
    pose proof (alignment_verdict_not_off vs vos) as H. revert H.
    unfold escalates. generalize (alignment_verdict vs vos).
    intros [[] k] H; simpl in *; try lia. done.
  - apply Qltb_ge in E3'.
    assert (Qltb (3 # 10) b = false) as ->
      by (apply Qltb_ge; by eapply Qle_trans).
    apply escalates_refl.
Qed.

Lemma filter_nonempty_mono {A} (f : A → bool) (l l' : list A) :
  (∀ x, x ∈ l → x ∈ l') →
  is_nonempty (List.filter f l) = true → is_nonempty (List.filter f l') = true.
Proof.
  rewrite !filter_nonempty_iff. intros Hsub (x & Hx & Hf). exists x. auto.
Qed.

(** X10. Making a profile stricter never makes a verdict milder: with the
    same values and voice descriptors, more never-rules, more unacceptable
    tones or more bad examples leave the status of every content where it
    is or escalate it. *)
Theorem stricter_profile_escalates (p p' : BrandProfile) (c : string) :
  at_least_as_strict p p' →
  ∃ v v', evaluate p c = Returned v ∧ evaluate p' c = Returned v'
          ∧ escalates (Verdict.status v) (Verdict.status v').
Proof.
  intros (Hvalues & Hvoice & Hnever & Htone & Hbad).
  destruct (pipeline_run_exists p c) as (l1 & l2 & l3 & l4 & l5 & l6 & l7 & l8 & v & R).
  destruct (pipeline_run_exists p' c)
    as (l1' & l2' & l3' & l4' & l5' & l6' & l7' & l8' & v' & R').
  exists v, v'.
  split; [apply (run_verdict _ _ _ _ _ _ _ _ _ _ _ R)|].
  split; [apply (run_verdict _ _ _ _ _ _ _ _ _ _ _ R')|].
  rewrite (run_status _ _ _ _ _ _ _ _ _ _ _ R),
          (run_status _ _ _ _ _ _ _ _ _ _ _ R').
  change (status l8) with (fst (status l8, confidence l8)).
  change (status l8') with (fst (status l8', confidence l8')).
  rewrite (run_decision R), (run_decision R'), Hvalues, Hvoice.
  apply decision_table_mono.
  - by apply filter_nonempty_mono.
  - by apply filter_nonempty_mono.
  - destruct (example_stage_spec p c l2) as (x & Ex & Hmax & _).
    rewrite (run_example _ _ _ _ _ _ _ _ _ _ _ R) in Ex. injection Ex as <-.
    destruct (example_stage_spec p' c l2') as (x' & Ex' & Hmax' & _).
    rewrite (run_example _ _ _ _ _ _ _ _ _ _ _ R') in Ex'. injection Ex' as <-.
    by eapply is_max_similarity_mono.
Qed.

Lemma stricter_profile_escalates_witness :
  at_least_as_strict scenario2_profile scenario1_profile
  ∧ ∃ v v', evaluate scenario2_profile scenario1_content = Returned v
            ∧ evaluate scenario1_profile scenario1_content = Returned v'
            ∧ escalates (Verdict.status v) (Verdict.status v').
Proof.
  assert (at_least_as_strict scenario2_profile scenario1_profile) as H.
  { repeat split; try done; simpl; by intros x ?%elem_of_nil. }
  split; [exact H|].
  exact (stricter_profile_escalates scenario2_profile scenario1_profile
           scenario1_content H).
Defined.

(** ** Normal forms of text *)

Lemma lower_char_idempotent c :
  PyStr.lower_char (PyStr.lower_char c) = PyStr.lower_char c.
Proof. destruct c as [[] [] [] [] [] [] [] []]; vm_compute; reflexivity. Qed.

Lemma isspace_lower_char c : PyStr.isspace (PyStr.lower_char c) = PyStr.isspace c.
Proof. destruct c as [[] [] [] [] [] [] [] []]; vm_compute; reflexivity. Qed.

Lemma lower_lstrip s : PyStr.lower (PyStr.lstrip s) = PyStr.lstrip (PyStr.lower s).
Proof.
  induction s as [|c r IH]; simpl; [done|].
  rewrite isspace_lower_char. by destruct (PyStr.isspace c).
Qed.

Lemma lower_rstrip s : PyStr.lower (PyStr.rstrip s) = PyStr.rstrip (PyStr.lower s).
Proof.
  induction s as [|c r IH]; simpl; [done|].
  rewrite <- IH, isspace_lower_char.
  destruct (PyStr.rstrip r); simpl; [by destruct (PyStr.isspace c)|done].
Qed.

Lemma lower_re_sub b s :
  PyStr.lower (PyStr.re_sub_runs PyStr.isspace " " b s)
  = PyStr.re_sub_runs PyStr.isspace " " b (PyStr.lower s).
Proof.
  revert b. induction s as [|c r IH]; intros b; simpl; [done|].
  rewrite isspace_lower_char.
  destruct (PyStr.isspace c), b; simpl; by rewrite IH.
Qed.

Lemma lower_idempotent s : PyStr.lower (PyStr.lower s) = PyStr.lower s.
Proof. induction s as [|c r IH]; simpl; [done|]. by rewrite lower_char_idempotent, IH. Qed.

Lemma lower_normalize_text s : PyStr.lower (normalize_text s) = normalize_text s.
Proof.
  unfold normalize_text, PyStr.strip.
  by rewrite lower_re_sub, lower_rstrip, lower_lstrip, lower_idempotent.
Qed.

Lemma re_sub_single_spaced b s :
  single_spaced b (PyStr.re_sub_runs PyStr.isspace " " b s) = true.
Proof.
  revert b. induction s as [|c r IH]; intros b; simpl; [done|].
  destruct (PyStr.isspace c) eqn:Ec.
  - destruct b; [apply IH|]. simpl. apply IH.
  - simpl. rewrite Ec. apply IH.
Qed.

Lemma single_spaced_re_sub b s :
  single_spaced b s = true → PyStr.re_sub_runs PyStr.isspace " " b s = s.
Proof.
  revert b. induction s as [|c r IH]; intros b; simpl; [done|].
  destruct (PyStr.isspace c).
  - intros [[Hb Hc%Ascii.eqb_eq]%andb_true_iff Hr]%andb_true_iff.
    apply negb_true_iff in Hb. subst. by rewrite IH.
  - intros Hr. by rewrite IH.
Qed.

Lemma starts_nonspace_lstrip s : starts_nonspace (PyStr.lstrip s) = true.
Proof.
  induction s as [|c r IH]; simpl; [done|].
  destruct (PyStr.isspace c) eqn:Ec; [done|]. simpl. by rewrite Ec.
Qed.

Lemma lstrip_starts_nonspace s : starts_nonspace s = true → PyStr.lstrip s = s.
Proof. destruct s as [|c r]; simpl; [done|]. by intros ->%negb_true_iff. Qed.

Lemma starts_nonspace_rstrip s :
  starts_nonspace s = true → starts_nonspace (PyStr.rstrip s) = true.
Proof.
  destruct s as [|c r]; simpl; [done|]. intros Hc.
  destruct (PyStr.rstrip r); simpl; [|done].
  by rewrite (proj1 (negb_true_iff _) Hc).
Qed.

Lemma starts_nonspace_re_sub s :
  starts_nonspace s = true →
  starts_nonspace (PyStr.re_sub_runs PyStr.isspace " " false s) = true.
Proof.
  destruct s as [|c r]; simpl; [done|].
  intros Hc. rewrite (proj1 (negb_true_iff _) Hc). simpl. done.
Qed.

Lemma ends_nonspace_rstrip s : ends_nonspace (PyStr.rstrip s) = true.
Proof.
  induction s as [|c r IH]; simpl; [done|].
  destruct (PyStr.rstrip r) as [|c' r'] eqn:E.
  - destruct (PyStr.isspace c) eqn:Ec; simpl; [done|by rewrite Ec].
  - change (ends_nonspace (String c' r') = true). exact IH.
Qed.

Lemma rstrip_ends_nonspace s : ends_nonspace s = true → PyStr.rstrip s = s.
Proof.
  induction s as [|c r IH]; [done|].
  destruct r as [|c' r'].
  - simpl. by intros ->%negb_true_iff.
  - intros H. change (ends_nonspace (String c' r') = true) in H.
    simpl in *. by rewrite (IH H).
Qed.

Lemma re_sub_nonempty b s :
  ends_nonspace s = true → s ≠ EmptyString →
  PyStr.re_sub_runs PyStr.isspace " " b s ≠ EmptyString.
Proof.
  revert b. induction s as [|c r IH]; intros b He Hne; [done|]. simpl.
  destruct (PyStr.isspace c) eqn:Ec; [|done].
  destruct r as [|c' r']; [simpl in He; by rewrite Ec in He|].
  change (ends_nonspace (String c' r') = true) in He.
  destruct b; [by apply IH|done].
Qed.

Lemma ends_nonspace_cons c s :
  s ≠ EmptyString → ends_nonspace (String c s) = ends_nonspace s.
Proof. by destruct s. Qed.

Lemma ends_nonspace_re_sub b s :
  ends_nonspace s = true →
  ends_nonspace (PyStr.re_sub_runs PyStr.isspace " " b s) = true.
Proof.
  revert b. induction s as [|c r IH]; intros b He; [done|].
  destruct r as [|c' r'].
  - simpl in *. apply negb_true_iff in He. rewrite He. simpl. by rewrite He.
  - change (ends_nonspace (String c' r') = true) in He.
    change (PyStr.re_sub_runs PyStr.isspace " " b (String c (String c' r')))
      with (if PyStr.isspace c
            then (if b then PyStr.re_sub_runs PyStr.isspace " " true (String c' r')
                  else String " " (PyStr.re_sub_runs PyStr.isspace " " true
                                                     (String c' r')))
            else String c (PyStr.re_sub_runs PyStr.isspace " " false (String c' r'))).
    destruct (PyStr.isspace c); [destruct b|].
    + by apply IH.
    + rewrite ends_nonspace_cons by (by apply re_sub_nonempty). by apply IH.
    + rewrite ends_nonspace_cons by (by apply re_sub_nonempty). by apply IH.
Qed.

(** The shape of a normalized text. *)
Lemma normalize_text_shape s :
  starts_nonspace (normalize_text s) = true
  ∧ ends_nonspace (normalize_text s) = true
  ∧ single_spaced false (normalize_text s) = true.
Proof.
  unfold normalize_text, PyStr.strip. split; [|split].
  - apply starts_nonspace_re_sub, starts_nonspace_rstrip, starts_nonspace_lstrip.
  - apply ends_nonspace_re_sub, ends_nonspace_rstrip.
  - apply re_sub_single_spaced.
Qed.

Lemma normalize_text_idempotent s :
  normalize_text (normalize_text s) = normalize_text s.
Proof.
  destruct (normalize_text_shape s) as (Hs & He & Hsp).
  unfold normalize_text at 1. rewrite lower_normalize_text.
  unfold PyStr.strip. rewrite (lstrip_starts_nonspace _ Hs).
  rewrite (rstrip_ends_nonspace _ He). by apply single_spaced_re_sub.
Qed.

(** X11. Normalizing is idempotent, and a normalized text has no
    whitespace at either end, no whitespace but single spaces, and is left
    unchanged by [lower]. So a text and its normalized form contain the
    same phrases, have the same tokens, and are the same to the stages and
    to the checker, whose two verdict dicts differ at most in
    [contentHash]. *)
Theorem normalize_text_is_a_normal_form (s : string) :
  normalize_text (normalize_text s) = normalize_text s
  ∧ starts_nonspace (normalize_text s) = true
  ∧ ends_nonspace (normalize_text s) = true
  ∧ single_spaced false (normalize_text s) = true
  ∧ PyStr.lower (normalize_text s) = normalize_text s
  ∧ (∀ phrase, contains_phrase (normalize_text s) (normalize_text phrase)
               = contains_phrase s phrase)
  ∧ tokenize (normalize_text s) = tokenize s
  ∧ (∀ p, evaluate p (normalize_text s) = evaluate p s)
  ∧ (∀ file, same_but_hash (BrandCheckerTool_run file (normalize_text s))
                           (BrandCheckerTool_run file s)).
Proof.
  destruct (normalize_text_shape s) as (Hs & He & Hsp).
  split; [apply normalize_text_idempotent|]. do 3 (split; [done|]).
  split; [apply lower_normalize_text|].
  split; [|split; [|split]].
  - intros phrase. unfold contains_phrase. by rewrite !normalize_text_idempotent.
  - apply tokenize_same, normalize_text_idempotent.
  - intros p. apply evaluate_same, normalize_text_idempotent.
  - intros file. apply run_same_but_hash, normalize_text_idempotent.
Qed.

(** ** Tokens *)

Lemma string_app_cons x (a b : string) : String x a +:+ b = String x (a +:+ b).
Proof. reflexivity. Qed.

Lemma string_app_nil_l (b : string) : "" +:+ b = b.
Proof. reflexivity. Qed.

Lemma string_app_assoc (a b c : string) : (a +:+ b) +:+ c = a +:+ (b +:+ c).
Proof.
  induction a as [|x a IH]; [done|]. by rewrite !string_app_cons, IH.
Qed.

Lemma string_app_nil_r (a : string) : a +:+ "" = a.
Proof. induction a as [|x a IH]; [done|]. by rewrite string_app_cons, IH. Qed.

Lemma string_length_app (a b : string) :
  String.length (a +:+ b) = (String.length a + String.length b)%nat.
Proof.
  induction a as [|x a IH]; [done|]. rewrite string_app_cons. simpl. by rewrite IH.
Qed.

Lemma none_in_app cls (a b : string) :
  none_in cls (a +:+ b) = none_in cls a && none_in cls b.
Proof.
  induction a as [|x a IH]; [done|].
  rewrite string_app_cons. simpl. by rewrite IH, andb_assoc.
Qed.

Lemma lower_app (a b : string) :
  PyStr.lower (a +:+ b) = PyStr.lower a +:+ PyStr.lower b.
Proof.
  induction a as [|x a IH]; [done|].
  rewrite string_app_cons. simpl. by rewrite IH.
Qed.

Lemma re_split_pieces cls b cur s w :
  none_in cls cur = true → PyStr.lower cur = cur → PyStr.lower s = s →
  w ∈ PyStr.re_split_runs cls b cur s →
  none_in cls w = true ∧ PyStr.lower w = w.
Proof.
  revert b cur. induction s as [|c r IH]; intros b cur Hcur Hlow Hs; simpl.
  - by intros ->%list_elem_of_singleton.
  - simpl in Hs. injection Hs as Hc Hr.
    destruct (cls c) eqn:Ec.
    + destruct b.
      * by apply IH.
      * intros [->|Hw]%elem_of_cons; [done|]. revert Hw. by apply IH.
    + apply IH; [|by rewrite lower_app, Hlow; simpl; rewrite Hc|done].
      rewrite none_in_app, Hcur. simpl. by rewrite Ec.
Qed.

(** X12. A token is never empty, holds no whitespace and none of the
    punctuation characters the tokenizer splits on, and [lower] leaves it
    unchanged. *)
Theorem tokens_are_clean_words (text w : string) :
  w ∈ tokenize text →
  w ≠ EmptyString
  ∧ none_in is_token_delimiter w = true
  ∧ none_in PyStr.isspace w = true
  ∧ PyStr.lower w = w.
Proof.
  unfold tokenize. rewrite elem_of_list_to_set, elem_of_filter_bool.
  intros [Hw Hne].
  destruct (re_split_pieces is_token_delimiter false ""%string
              (normalize_text text) w eq_refl eq_refl
              (lower_normalize_text text) Hw) as [Hd Hl].
  split; [by destruct w|]. split; [done|]. split; [|done].
  clear -Hd. induction w as [|c r IH]; simpl in *; [done|].
  apply andb_true_iff in Hd as [Hc Hr]. rewrite (IH Hr), andb_true_r.
  unfold is_token_delimiter in Hc. apply negb_true_iff, orb_false_iff in Hc.
  by rewrite (proj1 Hc).
Qed.

Lemma tokens_are_clean_words_witness :
  "world"%string ∈ tokenize "Hello,  WORLD!"
  ∧ none_in is_token_delimiter "world" = true.
Proof.
  assert ("world"%string ∈ tokenize "Hello,  WORLD!") as H.
  { apply (bool_decide_eq_true_1 ("world"%string ∈ tokenize "Hello,  WORLD!")).
    vm_compute. reflexivity. }
  split; [exact H|].
  exact (proj1 (proj2 (tokens_are_clean_words _ _ H))).
Defined.

(** ** The extremes of the word overlap *)

(** X13. The overlap of two texts is 1 exactly when they have the same
    tokens, and at least one; it is 0 exactly when they share no token. So
    word order, letter case, punctuation and repeated words do not count. *)
Theorem word_overlap_extremes (a b : string) :
  ∃ q, calculate_word_overlap a b = Returned q
    ∧ ((q == 1)%Q ↔ tokenize a = tokenize b ∧ tokenize a ≠ ∅)
    ∧ ((q == 0)%Q ↔ tokenize a ∩ tokenize b = ∅).
Proof.
  exists (overlap_value a b). split; [apply calculate_word_overlap_value|].
  unfold overlap_value.
  destruct (decide (tokenize a = ∅)) as [Ha|Ha].
  { rewrite (bool_decide_eq_true_2 _ Ha). simpl. rewrite Ha. split.
    - split; [done|]. by intros [_ ?].
    - split; [intros _; apply (left_absorb_L _ _)|done]. }
  rewrite (bool_decide_eq_false_2 _ Ha). simpl.
  destruct (decide (tokenize b = ∅)) as [Hb|Hb].
  { rewrite (bool_decide_eq_true_2 _ Hb). rewrite Hb. split.
    - split; [done|]. intros [E _]. by rewrite E in Ha.
    - split; [intros _; apply (right_absorb_L _ _)|done]. }
  rewrite (bool_decide_eq_false_2 _ Hb).
  pose proof (size_union_pos _ (tokenize b) Ha) as Hpos.
  assert (tokenize a ∩ tokenize b ⊆ tokenize a ∪ tokenize b) as Hsub
    by (etrans; [apply intersection_subseteq_l | apply union_subseteq_l]).
  unfold Qeq. simpl. rewrite !Z.mul_1_r, ?Z.mul_1_l.
  replace (Z.pos (Pos.of_nat (size (tokenize a ∪ tokenize b))))
    with (Z.of_nat (size (tokenize a ∪ tokenize b))) by lia.
  split.
  - split.
    + intros Hsize.
      assert (tokenize a ∩ tokenize b = tokenize a ∪ tokenize b) as E
        by (apply set_subseteq_size_eq; [done|lia]).
      split; [|done]. apply set_eq. intros x.
      assert (x ∈ tokenize a ∪ tokenize b ↔ x ∈ tokenize a ∩ tokenize b) as Hx
        by (by rewrite E).
      rewrite elem_of_union, elem_of_intersection in Hx. tauto.
    + intros [E _]. by rewrite E, (idemp_L (∩)), (idemp_L (∪)).
  - split.
    + intros Hz. apply leibniz_equiv, size_empty_iff. lia.
    + intros ->. by rewrite size_empty.
Qed.

(** ** Phrases within phrases *)

Lemma startswith_prefix s p :
  PyStr.startswith s p = true ↔ ∃ b, s = p +:+ b.
Proof.
  revert s. induction p as [|x p IH]; intros s.
  - split; [by exists s | by destruct s].
  - destruct s as [|y s]; simpl; [split; [done | by intros [b ?]]|].
    rewrite andb_true_iff, Ascii.eqb_eq, IH. split.
    + intros [-> [b ->]]. by exists b.
    + intros [b E]. rewrite string_app_cons in E. injection E as -> ->.
      split; [done | by exists b].
Qed.

Lemma contains_unfold s p :
  PyStr.contains s p
  = PyStr.startswith s p
    || match s with EmptyString => false | String _ s' => PyStr.contains s' p end.
Proof. by destruct s. Qed.

Lemma contains_infix s p :
  PyStr.contains s p = true ↔ ∃ a b, s = a +:+ (p +:+ b).
Proof.
  induction s as [|y s IH]; rewrite contains_unfold.
  - rewrite orb_false_r, startswith_prefix. split.
    + intros [b E]. by exists ""%string, b.
    + intros (a & b & E). destruct a; [by exists b | done].
  - rewrite orb_true_iff, startswith_prefix, IH. split.
    + intros [[b E]|(a & b & ->)]; [by exists ""%string, b|].
      by exists (String y a), b.
    + intros ([|x a] & b & E); [left; by exists b|].
      right. rewrite string_app_cons in E. injection E as -> ->. by exists a, b.
Qed.

Lemma contains_self s : PyStr.contains s s = true.
Proof. apply contains_infix. exists ""%string, ""%string. by rewrite string_app_nil_r. Qed.

Lemma contains_trans s p q :
  PyStr.contains s p = true → PyStr.contains p q = true → PyStr.contains s q = true.
Proof.
  rewrite !contains_infix. intros (a & b & ->) (a' & b' & ->).
  exists (a +:+ a'), (b' +:+ b). by rewrite !string_app_assoc.
Qed.

Lemma string_app_length_nil (a s b : string) :
  String.length (a +:+ (s +:+ b)) ≤ String.length s → a +:+ (s +:+ b) = s.
Proof.
  rewrite !string_length_app. intros H.
  destruct a; [|simpl in H; lia]. destruct b; [|simpl in H; lia].
  rewrite string_app_nil_l. apply string_app_nil_r.
Qed.

Lemma contains_antisym s p :
  PyStr.contains s p = true → PyStr.contains p s = true → s = p.
Proof.
  rewrite !contains_infix. intros (a & b & Es) (a' & b' & Ep).
  assert (String.length s = String.length (a +:+ (p +:+ b))) as Hs by congruence.
  assert (String.length p = String.length (a' +:+ (s +:+ b'))) as Hp by congruence.
  rewrite !string_length_app in Hs, Hp.
  rewrite Es. apply string_app_length_nil. rewrite !string_length_app. lia.
Qed.

(** X14. Phrase containment orders texts up to normalization: every text
    contains itself; a phrase contained in a phrase that the content
    contains is contained in the content; and two texts that contain each
    other have the same normalized text, hence are the same to the stages
    under every profile, and the checker ends the same way on both, with
    verdict dicts that differ at most in [contentHash]. *)
Theorem contains_phrase_is_an_order :
  (∀ s, contains_phrase s s = true)
  ∧ (∀ content phrase inner,
       contains_phrase content phrase = true →
       contains_phrase phrase inner = true →
       contains_phrase content inner = true)
  ∧ (∀ a b,
       contains_phrase a b = true → contains_phrase b a = true →
       normalize_text a = normalize_text b
       ∧ (∀ p, evaluate p a = evaluate p b)
       ∧ ∀ file, same_but_hash (BrandCheckerTool_run file a)
                               (BrandCheckerTool_run file b)).
Proof.
  split; [|split].
  - intros s. apply contains_self.
  - intros content phrase inner. apply contains_trans.
  - intros a b Hab Hba.
    assert (normalize_text a = normalize_text b) as E
      by (by apply contains_antisym).
    split; [done|]. split; [intros p; by apply evaluate_same|].
    intros file. by apply run_same_but_hash.
Qed.

Lemma contains_phrase_is_an_order_witness :
  (contains_phrase "Limited-time resale offer" "RESALE  offer" = true
   ∧ contains_phrase "RESALE  offer" "sale" = true)
  ∧ contains_phrase "Limited-time resale offer" "sale" = true.
Proof.
  assert (contains_phrase "Limited-time resale offer" "RESALE  offer" = true) as H1
    by reflexivity.
  assert (contains_phrase "RESALE  offer" "sale" = true) as H2 by reflexivity.
  split; [by split|].
  exact (proj1 (proj2 contains_phrase_is_an_order) _ _ _ H1 H2).
Defined.

(** ** The checker on any profile path *)






(** ** [SimpleBrandChecker.check_batch] *)




(** ** [SimpleBrandChecker.get_summary] *)

Lemma truediv_pos a b :
  (0 < b)%nat → truediv a b = Returned (Z.of_nat a # Pos.of_nat b).
Proof. by destruct b; [lia|]. Qed.

Lemma get_summary_value results :
  SimpleBrandChecker_get_summary results
  = Returned {| Summary.total := length results;
                Summary.on_brand := count_status ON_BRAND results;
                Summary.borderline := count_status BORDERLINE results;
                Summary.off_brand := count_status OFF_BRAND results;
                Summary.health_score_unrounded := health_value results;
                Summary.needs_attention :=
                  indices_with_status OFF_BRAND 0 results |}.
Proof.
  unfold SimpleBrandChecker_get_summary, health_value.
  case_bool_decide as H; [|done]. by rewrite (truediv_pos _ _ H).
Qed.

Lemma count_status_cons s r rs :
  count_status s (r :: rs)
  = ((if bool_decide (result_status r = Some s) then 1 else 0)
     + count_status s rs)%nat.
Proof. unfold count_status. simpl. by case_bool_decide. Qed.

Lemma count_status_partition results :
  (count_status ON_BRAND results + count_status BORDERLINE results
   + count_status OFF_BRAND results
   + length (List.filter is_error_dict results) = length results)%nat.
Proof.
  induction results as [|r rs IH]; [done|]. rewrite !count_status_cons.
  destruct r as [e|v]; simpl.
  - repeat case_bool_decide; try done. lia.
  - destruct (Verdict.status v); repeat case_bool_decide; try done; lia.
Qed.

Lemma count_status_all s results :
  count_status s results = length results
  ↔ Forall (λ r, result_status r = Some s) results.
Proof.
  induction results as [|r rs IH]; [by split; [constructor|]|].
  rewrite count_status_cons, Forall_cons, <- IH.
  assert (count_status s rs ≤ length rs)%nat
    by (unfold count_status; apply List.filter_length_le).
  simpl. case_bool_decide as E.
  - split; [intros ?; split; [done|lia] | intros [_ ?]; lia].
  - split; [lia | by intros [? _]].
Qed.

Lemma count_status_pos s results :
  (0 < count_status s results)%nat
  ↔ ∃ r, r ∈ results ∧ result_status r = Some s.
Proof.
  induction results as [|r rs IH].
  - split; [unfold count_status; simpl; lia|]. by intros (r & ?%elem_of_nil & _).
  - rewrite count_status_cons. case_bool_decide as E.
    + split; [|lia]. intros _. exists r. split; [constructor|done].
    + simpl. rewrite IH. split.
      * intros (r' & ? & ?). exists r'. split; [by constructor|done].
      * intros (r' & [->|?]%elem_of_cons & ?); [done|by exists r'].
Qed.

Lemma Qmake_percent (a n : nat) :
  (0 < n)%nat →
  (0 <= Z.of_nat a # Pos.of_nat n)%Q
  ∧ ((a ≤ 100 * n)%nat → (Z.of_nat a # Pos.of_nat n <= 100)%Q)
  ∧ ((Z.of_nat a # Pos.of_nat n == 100)%Q ↔ a = (100 * n)%nat).
Proof.
  intros Hn. unfold Qle, Qeq. cbn [Qnum Qden].
  replace (Z.pos (Pos.of_nat n)) with (Z.of_nat n) by lia.
  change (Z.pos 1) with 1%Z. rewrite !Z.mul_1_r.
  split; [lia|]. split; lia.
Qed.

(** X17. [get_summary] never raises, on the empty list either. The three
    counts and the number of error dicts add up to the total, so they add
    up to the total exactly when no result is an error dict. The health
    score, before it is rounded, lies between 0 and 100; it is 0 on the
    empty list, and it is 100 exactly when the list is not empty and every
    result is on-brand: an error dict counts like an off-brand result. *)
Theorem summary_accounts_for_results (results : list RunResult) :
  ∃ sm,
    SimpleBrandChecker_get_summary results = Returned sm
    ∧ Summary.total sm = length results
    ∧ (Summary.on_brand sm + Summary.borderline sm + Summary.off_brand sm
       + length (List.filter is_error_dict results) = Summary.total sm)%nat
    ∧ (0 <= Summary.health_score_unrounded sm)%Q
    ∧ (Summary.health_score_unrounded sm <= 100)%Q
    ∧ (results = [] → Summary.health_score_unrounded sm = 0%Q)
    ∧ ((Summary.health_score_unrounded sm == 100)%Q
       ↔ results ≠ [] ∧ Forall (λ r, result_status r = Some ON_BRAND) results).
Proof.
  eexists. split; [apply get_summary_value|]. cbn [Summary.total Summary.on_brand
    Summary.borderline Summary.off_brand Summary.health_score_unrounded].
  pose proof (count_status_partition results) as P.
  split; [done|]. split; [done|].
  unfold health_value. case_bool_decide as Hn.
  - destruct (Qmake_percent (count_status ON_BRAND results * 100
                             + count_status BORDERLINE results * 50)
                            (length results) Hn) as (H0 & H100 & Heq).
    split; [done|]. split; [apply H100; lia|].
    split; [intros ->; simpl in Hn; lia|].
    rewrite Heq, <- count_status_all. split.
    + intros H. split; [intros ->; simpl in Hn; lia | lia].
    + intros [_ H]. lia.
  - split; [done|]. split; [done|]. split; [done|]. split; [done|].
    intros [H _]. destruct results; [done|]. simpl in Hn. lia.
Qed.

Lemma summary_accounts_for_results_witness :
  ∃ sm, SimpleBrandChecker_get_summary [] = Returned sm
      ∧ Summary.health_score_unrounded sm = 0%Q.
Proof.
  destruct (summary_accounts_for_results [])
    as (sm & Hsm & _ & _ & _ & _ & H0 & _).
  exists sm. split; [exact Hsm | exact (H0 eq_refl)].
Defined.

Lemma indices_with_status_spec s start results i :
  i ∈ indices_with_status s start results
  ↔ (start ≤ i)%nat
    ∧ ∃ r, results !! (i - start)%nat = Some r ∧ result_status r = Some s.
Proof.
  revert start. induction results as [|r rs IH]; intros start.
  - simpl. split; [by intros ?%elem_of_nil | by intros (_ & r & ? & _)].
  - assert (i ∈ indices_with_status s (S start) rs
            ↔ (start < i)%nat
              ∧ ∃ r', (r :: rs) !! (i - start)%nat = Some r'
                      ∧ result_status r' = Some s) as Hrec.
    { rewrite IH. split.
      - intros (Hi & r' & Hr' & Hs). split; [lia|]. exists r'.
        replace (i - start)%nat with (S (i - S start)) by lia. done.
      - intros (Hi & r' & Hr' & Hs). split; [lia|]. exists r'.
        replace (i - start)%nat with (S (i - S start)) in Hr' by lia. done. }
    simpl. case_bool_decide as E.
    + rewrite elem_of_cons, Hrec. split.
      * intros [->|[Hi H]]; [|split; [lia|done]].
        split; [lia|]. exists r. by rewrite Nat.sub_diag.
      * intros [Hi H]. destruct (decide (i = start)) as [->|Hne]; [by left|].
        right. split; [lia|done].
    + rewrite Hrec. split.
      * intros [Hi H]. split; [lia|done].
      * intros [Hi (r' & Hr' & Hs)]. split; [|by exists r'].
        destruct (decide (i = start)) as [->|Hne]; [|lia].
        rewrite Nat.sub_diag in Hr'. injection Hr' as <-. done.
Qed.

Lemma indices_with_status_length s start results :
  length (indices_with_status s start results) = count_status s results.
Proof.
  revert start. induction results as [|r rs IH]; intros start; [done|].
  rewrite count_status_cons. simpl. case_bool_decide; simpl; by rewrite IH.
Qed.

Lemma indices_with_status_sorted s start results :
  StronglySorted lt (indices_with_status s start results).
Proof.
  revert start. induction results as [|r rs IH]; intros start; [constructor|].
  simpl. case_bool_decide; [|apply IH]. constructor; [apply IH|].
  apply Forall_forall. intros i Hi. apply indices_with_status_spec in Hi. lia.
Qed.

(** X18. [needs_attention] lists, in increasing order and without
    repetition, exactly the positions of the off-brand results: there are
    as many as the [off_brand] count says, each is a valid position, and
    neither a borderline result nor an error dict is ever listed. *)
Theorem needs_attention_are_off_brand_positions (results : list RunResult) :
  ∃ sm,
    SimpleBrandChecker_get_summary results = Returned sm
    ∧ length (Summary.needs_attention sm) = Summary.off_brand sm
    ∧ StronglySorted lt (Summary.needs_attention sm)
    ∧ ∀ i, i ∈ Summary.needs_attention sm
           ↔ ∃ r, results !! i = Some r ∧ result_status r = Some OFF_BRAND.
Proof.
  eexists. split; [apply get_summary_value|].
  cbn [Summary.needs_attention Summary.off_brand].
  split; [apply indices_with_status_length|].
  split; [apply indices_with_status_sorted|].
  intros i. rewrite indices_with_status_spec, Nat.sub_0_r.
  split; [by intros [_ ?] | intros ?; split; [lia|done]].
Qed.





(** ** [main.py]: the exit codes *)












(** ** The verdict against the response model *)

Lemma prefixed_text_valid (a b : string) asp sev :
  (1 ≤ String.length a)%nat →
  BrandExplanation_valid {| text := a +:+ b; aspect := asp; severity := sev |} = true.
Proof.
  intros H. apply bool_decide_eq_true_2. cbn [text]. rewrite string_length_app. lia.
Qed.

Lemma append_has_texts e l :
  BrandExplanation_valid e = true → has_texts l →
  has_texts (append_explanation e l).
Proof.
  intros He Hl. unfold has_texts. destruct l. simpl.
  apply Forall_app. split; [exact Hl|]. by constructor.
Qed.

Lemma same_explanations_has_texts l l' :
  explanations l' = explanations l → has_texts l → has_texts l'.
Proof. unfold has_texts. by intros ->. Qed.

Lemma never_rule_stage_has_texts p c l l' :
  never_rule_stage p c l = Returned l' → has_texts l → has_texts l'.
Proof.
  unfold never_rule_stage. intros H Hl.
  destruct (List.filter (contains_phrase c) (never_rules p)) as [|first rest].
  - destruct l. simpl in H. by injection H as <-.
  - destruct l. simpl in H. injection H as <-.
    apply (append_has_texts (prohibited_content first)); [|exact Hl].
    apply prefixed_text_valid. simpl. lia.
Qed.

Lemma tone_stage_has_texts p c l l' :
  tone_stage p c l = Returned l' → has_texts l → has_texts l'.
Proof.
  unfold tone_stage. intros H Hl.
  destruct (List.filter (contains_phrase c) (tone_unacceptable p)) as [|first rest].
  - destruct l. simpl in H. by injection H as <-.
  - destruct l as [es ? ? ? ? ? ? ? ? ? ? ? ?]. simpl in H.
    destruct (length es <? 3)%nat; simpl in H; injection H as <-; [|exact Hl].
    apply (append_has_texts (unacceptable_tone first)); [|exact Hl].
    apply prefixed_text_valid. simpl. lia.
Qed.

Lemma example_stage_has_texts p c l l' :
  example_stage p c l = Returned l' → has_texts l → has_texts l'.
Proof.
  unfold example_stage. intros H Hl.
  destruct (for_each (similarity_step c) (0%Q, 0%Q) (examples p)) as [sims|];
    [|done].
  destruct l as [es ? ? ? ? ? ? ? ? ? ? ? ?]. simpl in H.
  destruct (Qltb (3 # 10) (snd sims)); [|by injection H as <-].
  destruct (length _ <? 3)%nat eqn:E in H.
  - injection H as <-. apply append_has_texts; [done|].
    revert Hl. apply same_explanations_has_texts.
    by destruct (negb _).
  - injection H as <-. revert Hl. apply same_explanations_has_texts.
    by destruct (negb _).
Qed.

Lemma alignment_stage_has_texts p c l l' :
  alignment_stage p c l = Returned l' → has_texts l → has_texts l'.
Proof.
  unfold alignment_stage. intros H Hl.
  destruct (truediv _ (Nat.max (length (values p)) 1)) as [vs|]; [|done].
  destruct (truediv _ (Nat.max (length (voice_descriptors p)) 1)) as [vos|];
    [|done].
  destruct l as [es ? ? ? ? ? ? ? ? ? ? ? ?]. simpl in H.
  revert Hl. apply same_explanations_has_texts.
  repeat match type of H with
         | context [if ?b then _ else _] => destruct b
         end; by injection H as <-.
Qed.

Lemma positive_stage_has_texts l l' :
  positive_stage l = Returned l' → has_texts l → has_texts l'.
Proof.
  unfold positive_stage. intros H Hl.
  destruct (negb _); [|by injection H as <-].
  destruct (Qltb _ _).
  { injection H as <-. by apply append_has_texts. }
  destruct (Qltb _ _); injection H as <-; by apply append_has_texts.
Qed.

Lemma voice_fill_stage_has_texts p c l l' :
  voice_fill_stage p c l = Returned l' → has_texts l → has_texts l'.
Proof.
  unfold voice_fill_stage. intros H Hl.
  destruct (_ && _); [|by injection H as <-].
  destruct (is_nonempty _); injection H as <-; [|done].
  apply append_has_texts; [|done]. apply prefixed_text_valid. simpl. lia.
Qed.

Lemma tone_fill_stage_has_texts l l' :
  tone_fill_stage l = Returned l' → has_texts l → has_texts l'.
Proof.
  unfold tone_fill_stage. intros H Hl.
  destruct (_ && _); injection H as <-; [|done].
  apply append_has_texts; [|done]. apply prefixed_text_valid. simpl. lia.
Qed.

Lemma final_guarantee_stage_has_texts l l' :
  final_guarantee_stage l = Returned l' → has_texts l → has_texts l'.
Proof.
  unfold final_guarantee_stage. intros H Hl.
  destruct (negb _); injection H as <-; [|done].
  apply append_has_texts; [|done]. by case_bool_decide.
Qed.

(** X22. Every verdict dict meets the field constraints of the response
    model [BrandCheckResponse], on the keys that are modelled: it holds one
    to three explanations, each with a text that is not empty, and a
    confidence between 0 and 100. This holds for every profile and every
    content, the empty content too. *)
Theorem verdict_meets_response_model (p : BrandProfile) (c : string) :
  ∃ v, evaluate p c = Returned v ∧ BrandCheckResponse_valid v = true.
Proof.
  destruct (pipeline_run_exists p c)
    as (l1 & l2 & l3 & l4 & l5 & l6 & l7 & l8 & v & R).
  exists v. split; [apply (run_verdict _ _ _ _ _ _ _ _ _ _ _ R)|].
  unfold BrandCheckResponse_valid. rewrite !andb_true_iff. split; [split|].
  - apply forallb_forall. intros e He. apply list_elem_of_In in He.
    rewrite (run_verdict_explanations R), sort_by_key_perm in He.
    assert (has_texts l8) as H8.
    { apply (final_guarantee_stage_has_texts _ _
               (run_final_guarantee _ _ _ _ _ _ _ _ _ _ _ R)).
      apply (tone_fill_stage_has_texts _ _
               (run_tone_fill _ _ _ _ _ _ _ _ _ _ _ R)).
      apply (voice_fill_stage_has_texts _ _ _ _
               (run_voice_fill _ _ _ _ _ _ _ _ _ _ _ R)).
      apply (positive_stage_has_texts _ _
               (run_positive _ _ _ _ _ _ _ _ _ _ _ R)).
      apply (alignment_stage_has_texts _ _ _ _
               (run_alignment _ _ _ _ _ _ _ _ _ _ _ R)).
      apply (example_stage_has_texts _ _ _ _
               (run_example _ _ _ _ _ _ _ _ _ _ _ R)).
      apply (tone_stage_has_texts _ _ _ _
               (run_tone _ _ _ _ _ _ _ _ _ _ _ R)).
      apply (never_rule_stage_has_texts _ _ _ _
               (run_never_rule _ _ _ _ _ _ _ _ _ _ _ R)).
      constructor. }
    unfold has_texts in H8. rewrite Forall_forall in H8. by apply H8.
  - apply bool_decide_eq_true_2.
    destruct (run_explanation_stages R) as (_ & _ & _ & _ & Hne).
    rewrite (run_explanations _ _ _ _ _ _ _ _ _ _ _ R), length_take,
      sort_by_key_length.
    destruct (explanations l8) as [|e es]; [done|].
    change (length (e :: es)) with (S (length es))%nat. lia.
  - apply bool_decide_eq_true_2.
    rewrite (run_confidence _ _ _ _ _ _ _ _ _ _ _ R).
    pose proof (run_decision R) as Hd. symmetry in Hd.
    apply decision_table_bands in Hd; [|apply phrase_score_range..].
    destruct Hd as [(_ & Hk)|[(_ & Hk)|(_ & Hk)]]; lia.
Qed.

(** ** [BrandProfile.validate_version] *)

Lemma match_digits_split seen s r :
  match_digits seen s = Some r →
  ∃ d, s = d +:+ r
     ∧ none_in (λ c, negb (is_digit c)) d = true
     ∧ (seen = true ∨ PyStr.nonempty d = true).
Proof.
  revert seen. induction s as [|c s IH]; intros seen; simpl.
  - destruct seen; [|done]. intros [= <-]. exists ""%string. auto.
  - destruct (is_digit c) eqn:Ec.
    + intros (d & -> & Hd & _)%IH. exists (String c d).
      rewrite string_app_cons. simpl. rewrite Ec, Hd. auto.
    + destruct seen; [|done]. intros [= <-]. exists ""%string. auto.
Qed.

Lemma match_digits_join seen d r :
  none_in (λ c, negb (is_digit c)) d = true →
  seen = true ∨ PyStr.nonempty d = true →
  match r with String c _ => is_digit c = false | EmptyString => True end →
  match_digits seen (d +:+ r) = Some r.
Proof.
  revert seen. induction d as [|c d IH]; intros seen Hd Hs Hr.
  - rewrite string_app_nil_l. destruct Hs as [->|?]; [|done].
    destruct r as [|c r]; [done|]. simpl. by rewrite Hr.
  - rewrite string_app_cons. simpl in *.
    apply andb_true_iff in Hd as [Hc Hd]. apply negb_true_iff, negb_false_iff in Hc.
    rewrite Hc. apply IH; auto.
Qed.

Lemma match_dot_split s r : match_dot s = Some r ↔ s = dot +:+ r.
Proof.
  destruct s as [|c s]; simpl; [done|].
  destruct (PyStr.ord c =? 46)%N eqn:E.
  - apply N.eqb_eq in E.
    assert (c = PyStr.chr 46) as ->
      by (unfold PyStr.chr; rewrite <- E; symmetry; apply ascii_N_embedding).
    split; [by intros [= ->] | by intros [= ->]].
  - split; [done|]. intros [= -> _]. done.
Qed.

Lemma match_end_split s :
  match_end s = true ↔ s = EmptyString ∨ s = newline.
Proof.
  destruct s as [|c [|c' s]]; simpl.
  - split; auto.
  - rewrite N.eqb_eq. split.
    + intros E. right. unfold newline, PyStr.chr. rewrite <- E.
      by rewrite ascii_N_embedding.
    + intros [?|[= ->]]; done.
  - split; [done|]. intros [?|?]; done.
Qed.

Lemma is_number_split d :
  is_number d = true
  ↔ none_in (λ c, negb (is_digit c)) d = true ∧ PyStr.nonempty d = true.
Proof. unfold is_number. rewrite andb_true_iff. tauto. Qed.

(** X23. Among the strings over code points below 256, the versions that
    [validate_version] accepts are three numbers joined by dots, each a
    non-empty run of the digits 0 to 9 (leading zeros allowed), and the
    same followed by one newline: the [$] of the pattern also matches just
    before a final newline. (Beyond code point 255 the class [\d] also
    holds the decimal digits of other scripts.) *)
Theorem accepted_versions (v : string) :
  semver_match v = true
  ↔ ∃ major minor patch,
      is_number major = true ∧ is_number minor = true ∧ is_number patch = true
      ∧ (v = major +:+ dot +:+ minor +:+ dot +:+ patch
         ∨ v = major +:+ dot +:+ minor +:+ dot +:+ patch +:+ newline).
Proof.
  unfold semver_match. split.
  - destruct (match_digits false v) as [r1|] eqn:E1; simpl; [|done].
    destruct (match_dot r1) as [r2|] eqn:D1; simpl; [|done].
    destruct (match_digits false r2) as [r3|] eqn:E2; simpl; [|done].
    destruct (match_dot r3) as [r4|] eqn:D2; simpl; [|done].
    destruct (match_digits false r4) as [rest|] eqn:E3; simpl; [|done].
    intros Hend.
    apply match_digits_split in E1 as (major & -> & H1 & [?|N1]); [done|].
    apply match_dot_split in D1 as ->.
    apply match_digits_split in E2 as (minor & -> & H2 & [?|N2]); [done|].
    apply match_dot_split in D2 as ->.
    apply match_digits_split in E3 as (patch & -> & H3 & [?|N3]); [done|].
    exists major, minor, patch. rewrite !is_number_split.
    split; [done|]. split; [done|]. split; [done|].
    apply match_end_split in Hend as [-> | ->]; [left|by right].
    by rewrite string_app_nil_r.
  - intros (major & minor & patch & [H1 N1]%is_number_split
            & [H2 N2]%is_number_split & [H3 N3]%is_number_split & Hv).
    assert (∃ rest, v = major +:+ dot +:+ minor +:+ dot +:+ patch +:+ rest
                    ∧ (rest = EmptyString ∨ rest = newline)) as (rest & -> & Hrest).
    { destruct Hv as [-> | ->]; [exists ""%string | exists newline].
      - by rewrite string_app_nil_r; auto.
      - auto. }
    rewrite (match_digits_join false major _ H1) by (auto; done).
    simpl. rewrite string_app_nil_l.
    rewrite (match_digits_join false minor _ H2) by (auto; done).
    simpl. rewrite string_app_nil_l.
    rewrite (match_digits_join false patch _ H3)
      by (auto; by destruct Hrest as [-> | ->]).
    by apply match_end_split.
Qed.
